(** * WhereIsIt backend: identity resolution, item store and recovery workflow

    A shallow embedding of [src/index.js] (an Express application over
    MongoDB collections) and the properties of its request handlers.

    - JavaScript values are an inductive type [value]; a document is a finite
      map from field names to values, a collection a finite map from [_id]
      to documents (MongoDB keeps [_id] unique in a collection).
    - A handler is a function from the request and the store to a response
      and the next store.  Everything a handler takes from outside the
      program - library functions, the clock, generated identifiers, the
      outcome of a transaction - is an explicit parameter ([Platform],
      [ambient]).  A request reads the clock once.
    - Single reads and writes are taken to succeed; a transaction either
      commits all of its writes or none of them.

    Modelled: the [protect] middleware, [validateItemData], [createToken]
    and the routes [POST /users/firebase-login], [POST /inventory],
    [GET /inventory/:id], [GET /inventory], [PATCH /inventory/:id],
    [POST /inventory/:id/recover], [GET /recoveries], [GET /my-items],
    [PATCH /recoveries/:id] and [DELETE /inventory/:id].  Left out: the
    profile and logout routes, which read and write no collection, and
    [GET /highlights], which reads a collection of its own. *)

From Stdlib Require Import Ascii.
From stdpp Require Import gmap strings list fin_maps pretty sorting.

#[local] Open Scope string_scope.
#[local] Set Warnings "-register-all".

(** ** JavaScript values

    The values the handlers read, test or store.  Numbers are the
    integers; arrays are left out, no handler builds or tests one. *)

Inductive value :=
| VUndefined
| VNull
| VBool (b : bool)
| VNum (n : Z)
| VStr (s : string)
| VDate (t : option Z)        (* a Date; [None] is Invalid Date *)
| VOid (hex : string)         (* an ObjectId, by its hex string *)
| VObj (fields : gmap string value).

Abbreviation doc := (gmap string value).

(** [d[k]]: reading a property that is absent gives [undefined]. *)
Definition get (d : doc) (k : string) : value := default VUndefined (d !! k).

(** [!!v] *)
Definition truthy (v : value) : bool :=
  match v with
  | VUndefined | VNull => false
  | VBool b => b
  | VNum n => negb (n =? 0)%Z
  | VStr s => negb (String.eqb s "")
  | VDate _ | VOid _ | VObj _ => true
  end.

(** [a === b].  Primitives compare by value; objects compare by reference,
    and the operands the handlers compare are read from two separately
    loaded documents, so two objects are never the same one. *)
Definition strict_eq (a b : value) : bool :=
  match a, b with
  | VUndefined, VUndefined => true
  | VNull, VNull => true
  | VBool x, VBool y => Bool.eqb x y
  | VNum x, VNum y => (x =? y)%Z
  | VStr x, VStr y => String.eqb x y
  | _, _ => false
  end.

(** [typeof v === "string"] *)
Definition is_string (v : value) : bool :=
  match v with VStr _ => true | _ => false end.

(** [v !== undefined] *)
Definition defined (v : value) : bool :=
  match v with VUndefined => false | _ => true end.

(** [a || b] *)
Definition or_else (a b : value) : value := if truthy a then a else b.

(** The driver writes a property whose value is [undefined] as [null]. *)
Definition bson (v : value) : value :=
  match v with VUndefined => VNull | _ => v end.

(** A Date as the driver writes it: Invalid Date, whose time value is NaN,
    is serialised with the time value 0. *)
Definition bson_date (t : option Z) : value := VDate (Some (default 0%Z t)).

(** ** Identifiers

    An [_id] is an ObjectId (canonical) or a plain string (legacy). *)

Inductive id := Oid (hex : string) | Sid (s : string).

#[global] Instance id_eq_dec : EqDecision id.
Proof. solve_decision. Defined.

#[global] Instance id_countable : Countable id.
Proof.
  refine (inj_countable'
            (fun i => match i with Oid h => inl h | Sid s => inr s end)
            (fun x => match x with inl h => Oid h | inr s => Sid s end) _).
  by intros [].
Defined.

Abbreviation collection := (gmap id doc).

Definition value_of_id (i : id) : value :=
  match i with Oid h => VOid h | Sid s => VStr s end.

(** [i.toString()] *)
Definition id_toString (i : id) : string :=
  match i with Oid h => h | Sid s => s end.

(** A query [{ field: q }] with an ObjectId or a string operand matches a
    stored value of the same type and content. *)
Definition eq_match (q v : value) : bool :=
  match q, v with
  | VStr a, VStr b => String.eqb a b
  | VOid a, VOid b => String.eqb a b
  | _, _ => false
  end.

(** ** What the program takes from its libraries *)

(** The verified claim of an external identity token. *)
Record id_claims := {
  c_email : string;
  c_uid : string;
  c_name : option string;
  c_picture : option string;
}.

(** The payload of a session token: [createToken] signs [{ userId }] or
    [{ uid }]. *)
Record session_claims := {
  sc_userId : option string;
  sc_uid : option string;
}.

Class Platform := {
  (** [ObjectId.isValid(s)] on a string *)
  ObjectId_isValid : string -> bool;
  (** the hex string of [new ObjectId(s)], for a valid [s] *)
  ObjectId_hex : string -> string;
  (** the time value of [new Date(v)]; [None] when it is Invalid Date *)
  new_Date : value -> option Z;
  (** [Date.parse(v)]; [None] when it is NaN *)
  Date_parse : value -> option Z;
  (** [n.toString()] and [d.toString()] *)
  Number_toString : Z -> string;
  Date_toString : option Z -> string;
  (** [admin.auth().verifyIdToken(t)]; [None] when it rejects *)
  verifyIdToken : string -> option id_claims;
  (** [jwt.verify(t, JWT_SECRET)]; [None] when it throws *)
  jwt_verify : string -> option session_claims;
  (** [s.trim()]: [s] without the white space and the line terminators of
      Unicode at its two ends *)
  trim : string -> string;
}.

(** What one request takes from its surroundings. *)
Record ambient := {
  node_env : option string;     (* process.env.NODE_ENV *)
  now : Z;                      (* new Date() *)
  fresh : string;               (* the ObjectId the driver generates on insert *)
  fresh_user : string;          (* the one it generates for a provisioned user *)
  commit : bool;                (* does the transaction commit? *)
  tie_oid : bool;               (* of two documents matching an [$or], is the
                                    one under the ObjectId returned? *)
}.

(** ** Collections *)

(** [insertOne]: a duplicate [_id] is an error. *)
Definition insertOne (i : id) (d : doc) (c : collection) : option collection :=
  match c !! i with
  | None => Some (<[i := d]> c)
  | Some _ => None
  end.

(** [updateOne({ _id: i }, { $set: upd })]: the fields of [upd] replace
    those of the stored document, the others stay. *)
Definition updateOne (i : id) (upd : doc) (c : collection) : collection :=
  alter (fun d => upd ∪ d) i c.

(** [matchedCount] of that update. *)
Definition matchedCount (i : id) (c : collection) : nat :=
  match c !! i with Some _ => 1 | None => 0 end.

Definition deleteOne (i : id) (c : collection) : collection := delete i c.

(** [deleteMany({ field: q })] *)
Definition deleteMany (field : string) (q : value) (c : collection) : collection :=
  filter (fun kd : id * doc => eq_match q (get kd.2 field) = false) c.

(** [findOne({ field: q })]: a document with a matching field, if any;
    among several, the first in the order of the map. *)
Definition findOne (field : string) (q : value) (c : collection) : option (id * doc) :=
  List.find (fun kd : id * doc => eq_match q (get kd.2 field)) (map_to_list c).

Definition findById (i : id) (c : collection) : option (id * doc) :=
  (fun d => (i, d)) <$> c !! i.

Record store := {
  users : collection;
  items : collection;
  recoveries : collection;
}.

Definition with_users (s : store) (c : collection) : store :=
  {| users := c; items := items s; recoveries := recoveries s |}.
Definition with_items (s : store) (c : collection) : store :=
  {| users := users s; items := c; recoveries := recoveries s |}.

(** ** Requests and responses *)

Record request := {
  authorization : option string;   (* req.headers.authorization *)
  cookie_token : option string;    (* req.cookies.token *)
  param_id : string;               (* req.params.id *)
  body : doc;                      (* req.body, the object [express.json()]
                                      parsed; taken to be [{}] when the
                                      request has no body *)
}.

(** The status code and the [message] of the JSON answer. *)
Record response := {
  status : nat;
  message : string;
}.

Definition reply (code : nat) (msg : string) : response :=
  {| status := code; message := msg |}.

Abbreviation user := (id * doc)%type.

(** ** String helpers *)

(** [s.split(sep)] for a one-character separator. *)
Fixpoint split (sep : Ascii.ascii) (s : string) : list string :=
  match s with
  | EmptyString => [EmptyString]
  | String a r =>
      if Ascii.eqb a sep then EmptyString :: split sep r
      else match split sep r with
           | p :: ps => String a p :: ps
           | [] => [String a EmptyString]
           end
  end.

(** [o || dflt] on an optional string *)
Definition str_or (o : option string) (dflt : string) : string :=
  match o with
  | Some s => if String.eqb s "" then dflt else s
  | None => dflt
  end.

(** An optional string that is truthy. *)
Definition truthy_str (o : option string) : option string :=
  match o with
  | Some s => if String.eqb s "" then None else Some s
  | None => None
  end.

Section Handlers.
Context {platform : Platform}.

(** [v.toString()]; [None] when the call throws. *)
Definition toString (v : value) : option string :=
  match v with
  | VUndefined | VNull => None
  | VBool b => Some (if b then "true" else "false")
  | VNum n => Some (Number_toString n)
  | VStr s => Some s
  | VDate t => Some (Date_toString t)
  | VOid h => Some h
  | VObj _ => Some "[object Object]"
  end.

(** [new ObjectId(i)] on an [_id]; [None] when the constructor throws. *)
Definition ObjectId_new (i : id) : option string :=
  match i with
  | Oid h => Some h
  | Sid s => if ObjectId_isValid s then Some (ObjectId_hex s) else None
  end.

(** ** Identity resolution: [protect] *)

(** The token of an [Authorization: Bearer ...] header:
    [authorization.split(" ")[1]] when the header starts with ["Bearer "]. *)
Definition bearer_token (h : option string) : option string :=
  match h with
  | Some a => if String.prefix "Bearer " a then split " "%char a !! 1%nat else None
  | None => None
  end.

Definition new_user (amb : ambient) (dec : id_claims) : doc :=
  list_to_map
    [("name", VStr (str_or (c_name dec) "Firebase User"));
     ("email", VStr (c_email dec));
     ("uid", VStr (c_uid dec));
     ("isAdmin", VBool false);
     ("photoURL", VStr (str_or (c_picture dec) ""));
     ("createdAt", VDate (Some (now amb)));
     ("updatedAt", VDate (Some (now amb)))].

(** Step 1 of [protect], the body of its first [try]: verify the external
    token, find the user by email or insert one.  [None] when something in
    the block throws; the [catch] then goes on to the session token. *)
Definition resolve_external (amb : ambient) (tok : string) (s : store)
  : option (store * user) :=
  match verifyIdToken tok with
  | None => None
  | Some dec =>
      match findOne "email" (VStr (c_email dec)) (users s) with
      | Some u => Some (s, u)
      | None =>
          match insertOne (Oid (fresh_user amb)) (new_user amb dec) (users s) with
          | Some us =>
              Some (with_users s us, (Oid (fresh_user amb), new_user amb dec))
          | None => None
          end
      end
  end.

(** The user a verified session token refers to: by [userId] when that
    claim is truthy, else by [uid] when that one is.  The outer [None] is
    [new ObjectId(decoded.userId)] throwing. *)
Definition session_user (dec : session_claims) (us : collection)
  : option (option user) :=
  match truthy_str (sc_userId dec) with
  | Some uid =>
      if ObjectId_isValid uid
      then Some (findById (Oid (ObjectId_hex uid)) us)
      else None
  | None =>
      match truthy_str (sc_uid dec) with
      | Some u => Some (findOne "uid" (VStr u) us)
      | None => Some None
      end
  end.

(** Step 2 of [protect]: the session token of the cookie. *)
Definition resolve_session (req : request) (s : store) : response + user :=
  match truthy_str (cookie_token req) with
  | None => inl (reply 401 "Not authorized, no token")
  | Some t =>
      match jwt_verify t with
      | None => inl (reply 401 "Not authorized, token failed")
      | Some dec =>
          match session_user dec (users s) with
          | None => inl (reply 401 "Not authorized, token failed")
          | Some None => inl (reply 404 "User not found")
          | Some (Some u) => inr u
          end
      end
  end.

Definition protect (amb : ambient) (req : request) (s : store)
  : store * (response + user) :=
  match bearer_token (authorization req) with
  | Some tok =>
      match resolve_external amb tok s with
      | Some (s', u) => (s', inr u)
      | None => (s, resolve_session req s)
      end
  | None => (s, resolve_session req s)
  end.

(** A route registered as [app.METHOD(path, protect, handler)]. *)
Definition protected (handler : ambient -> user -> request -> store -> response * store)
    (amb : ambient) (req : request) (s : store) : response * store :=
  match protect amb req s with
  | (s', inl r) => (r, s')
  | (s', inr u) => handler amb u req s'
  end.

(** ** Item store *)

(** [validateItemData] *)
Definition validateItemData (data : doc) : bool :=
  let postType := get data "postType" in
  let thumbnail := get data "thumbnail" in
  let title := get data "title" in
  let category := get data "category" in
  let location := get data "location" in
  let date := get data "date" in
  if negb (truthy postType)
     || (negb (strict_eq postType (VStr "lost"))
         && negb (strict_eq postType (VStr "found")))
     || negb (truthy thumbnail)
     || negb (is_string thumbnail)
     || negb (truthy title)
     || negb (is_string title)
     || negb (truthy category)
     || negb (is_string category)
     || negb (truthy location)
     || negb (is_string location)
     || negb (truthy date)
     || negb (bool_decide (is_Some (Date_parse date)))
  then false
  else true.

Definition new_item (amb : ambient) (u : user) (b : doc) : doc :=
  list_to_map
    [("postType", get b "postType");
     ("thumbnail", get b "thumbnail");
     ("title", get b "title");
     ("description", or_else (get b "description") (VStr ""));
     ("category", get b "category");
     ("location", get b "location");
     ("date", bson_date (new_Date (get b "date")));
     ("contactName", bson (get u.2 "name"));
     ("contactEmail", bson (get u.2 "email"));
     ("status", VStr "not-recovered");
     ("createdAt", VDate (Some (now amb)));
     ("updatedAt", VDate (Some (now amb)))].

(** [POST /inventory] *)
Definition post_inventory (amb : ambient) (u : user) (req : request) (s : store)
  : response * store :=
  if negb (validateItemData (body req))
  then (reply 400 "Invalid item data", s)
  else
    match insertOne (Oid (fresh amb)) (new_item amb u (body req)) (items s) with
    | Some its => (reply 201 "Item added successfully", with_items s its)
    | None => (reply 500 "Server error", s)
    end.

(** The dual-identifier lookup of [GET /inventory/:id],
    [POST /inventory/:id/recover] and [DELETE /inventory/:id]:
    [{ $or: [{ _id: new ObjectId(id) }, { _id: id }] }] for a valid [id],
    [{ _id: id }] otherwise. *)
Definition find_item (amb : ambient) (ident : string) (c : collection)
  : option (id * doc) :=
  if ObjectId_isValid ident then
    match findById (Oid (ObjectId_hex ident)) c, findById (Sid ident) c with
    | Some a, Some b => Some (if tie_oid amb then a else b)
    | Some a, None => Some a
    | None, o => o
    end
  else findById (Sid ident) c.

(** [GET /inventory/:id]; the answer to a hit is the item itself. *)
Definition get_inventory (amb : ambient) (req : request) (s : store)
  : response * option (id * doc) :=
  match find_item amb (param_id req) (items s) with
  | None => (reply 404 "Item not found", None)
  | Some it => (reply 200 "", Some it)
  end.

(** The lookup of [PATCH /inventory/:id]: by ObjectId when the identifier
    is valid, and by the string when that found nothing. *)
Definition find_item_patch (ident : string) (c : collection) : option (id * doc) :=
  match (if ObjectId_isValid ident
         then findById (Oid (ObjectId_hex ident)) c else None) with
  | Some it => Some it
  | None => findById (Sid ident) c
  end.

Definition allowedFields : list string :=
  ["postType"; "title"; "description"; "category"; "location"; "date";
   "thumbnail"; "status"].

(** What the loop writes for a field:
    [field === "date" ? new Date(req.body.date) : req.body[field]], as it
    reaches the collection. *)
Definition written (b : doc) (field : string) : value :=
  if String.eqb field "date" then bson_date (new_Date (get b "date")) else get b field.

(** The [forEach] over [allowedFields] that fills [updateData]. *)
Definition collect_update (b : doc) : doc :=
  foldl (fun (updateData : doc) (field : string) =>
           if defined (get b field)
           then <[field := written b field]> updateData
           else updateData)
        ∅ allowedFields.

(** The identifier the route looks up: [id.split(":")[0].trim()]. *)
Definition patch_ident (req : request) : string :=
  trim (default "" (split ":"%char (param_id req) !! 0%nat)).

(** [PATCH /inventory/:id] *)
Definition patch_inventory (amb : ambient) (u : user) (req : request) (s : store)
  : response * store :=
  match find_item_patch (patch_ident req) (items s) with
  | None => (reply 404 "Item not found", s)
  | Some (i, item) =>
      if negb (bool_decide (node_env amb = Some "development"))
         && negb (strict_eq (get item "contactEmail") (get u.2 "email"))
      then (reply 403 "Not authorized", s)
      else
        let updateData :=
          <["updatedAt" := VDate (Some (now amb))]> (collect_update (body req)) in
        (reply 200 "Item updated successfully",
         with_items s (updateOne i updateData (items s)))
  end.

(** ** Recovery workflow *)

Definition recovery_data (amb : ambient) (i : id) (item : doc) (claimant : string)
    (u : user) (b : doc) (recDate : Z) : doc :=
  list_to_map
    [("itemId", value_of_id i);
     ("originalPostType", bson (get item "postType"));
     ("originalItemData",
       VObj (list_to_map
               [("title", bson (get item "title"));
                ("description", bson (get item "description"));
                ("category", bson (get item "category"));
                ("location", bson (get item "location"));
                ("date", bson (get item "date"));
                ("thumbnail", bson (get item "thumbnail"))]));
     ("originalOwner",
       VObj (list_to_map
               [("name", bson (get item "contactName"));
                ("email", bson (get item "contactEmail"))]));
     ("recoveredBy",
       VObj (list_to_map
               [("userId", VOid claimant);
                ("name", bson (get u.2 "name"));
                ("email", bson (get u.2 "email"));
                ("photoURL", or_else (get u.2 "photoURL") VNull)]));
     ("recoveredLocation", get b "recoveredLocation");
     ("recoveredDate", VDate (Some recDate));
     ("notes", or_else (get b "notes") (VStr ""));
     ("recoveryStatus", VStr "pending");
     ("createdAt", VDate (Some (now amb)))].

(** The transaction of the recover route: insert the recovery, then mark
    the item.  [None] when it does not commit; nothing is written then. *)
Definition recover_txn (amb : ambient) (i : id) (recoveryData : doc) (s : store)
  : option store :=
  if commit amb then
    match insertOne (Oid (fresh amb)) recoveryData (recoveries s) with
    | Some recs =>
        Some {| users := users s;
                items := updateOne i
                           (list_to_map [("status", VStr "recovered");
                                         ("updatedAt", VDate (Some (now amb)))])
                           (items s);
                recoveries := recs |}
    | None => None
    end
  else None.

(** [POST /inventory/:id/recover] *)
Definition post_recover (amb : ambient) (u : user) (req : request) (s : store)
  : response * store :=
  match find_item amb (param_id req) (items s) with
  | None => (reply 404 "Item not found", s)
  | Some (i, item) =>
      let recoveredLocation := get (body req) "recoveredLocation" in
      let recoveredDate := get (body req) "recoveredDate" in
      if negb (truthy recoveredLocation) || negb (truthy recoveredDate)
      then (reply 400 "Missing required fields", s)
      else if strict_eq (get u.2 "email") (get item "contactEmail")
      then (reply 400 "You cannot recover your own item", s)
      else
        match new_Date recoveredDate with
        | None => (reply 400 "Invalid recovery date", s)
        | Some recDate =>
            match ObjectId_new u.1 with
            | None => (reply 500 "Server error", s)
            | Some claimant =>
                match recover_txn amb i
                        (recovery_data amb i item claimant u (body req) recDate) s with
                | Some s' => (reply 200 "Item recovery recorded successfully", s')
                | None => (reply 500 "Server error", s)
                end
            end
        end
  end.

Definition recoveryAllowedFields : list string :=
  ["recoveryStatus"; "notes"; "recoveredLocation"; "recoveredDate"].

(** [Object.keys(updateData).filter(...).reduce(...)]: the body restricted
    to the allowed keys. *)
Definition filteredData (b : doc) : doc :=
  filter (fun kv : string * value => kv.1 ∈ recoveryAllowedFields) b.

(** [PATCH /recoveries/:id] *)
Definition patch_recoveries (amb : ambient) (u : user) (req : request) (s : store)
  : response * store :=
  if negb (ObjectId_isValid (param_id req))
  then (reply 400 "Invalid recovery ID", s)
  else if Nat.eqb (size (filteredData (body req))) 0
  then (reply 400 "No valid fields to update", s)
  else
    let i := Oid (ObjectId_hex (param_id req)) in
    let s' := {| users := users s;
                 items := items s;
                 recoveries := updateOne i (filteredData (body req)) (recoveries s) |} in
    if Nat.eqb (matchedCount i (recoveries s)) 0
    then (reply 404 "Recovery not found", s')
    else (reply 200 "Recovery updated successfully", s').

(** The ownership test of the delete route: is the request refused? *)
Definition delete_refused (item : doc) (u : user) : bool :=
  (negb (truthy (get item "userId"))
   || negb (bool_decide (toString (get item "userId") = Some (id_toString u.1))))
  && negb (strict_eq (get item "contactEmail") (get u.2 "email")).

(** The transaction of the delete route: the item, then every recovery
    that refers to it. *)
Definition delete_txn (amb : ambient) (i : id) (s : store) : option store :=
  if commit amb then
    Some {| users := users s;
            items := deleteOne i (items s);
            recoveries := deleteMany "itemId" (value_of_id i) (recoveries s) |}
  else None.

(** [DELETE /inventory/:id] *)
Definition delete_inventory (amb : ambient) (u : user) (req : request) (s : store)
  : response * store :=
  match find_item amb (param_id req) (items s) with
  | None => (reply 404 "Item not found", s)
  | Some (i, item) =>
      if delete_refused item u
      then (reply 403 "Not authorized to delete this item", s)
      else
        match delete_txn amb i s with
        | Some s' => (reply 200 "Item deleted successfully", s')
        | None => (reply 500 "Server error", s)
        end
  end.

End Handlers.

(** * Vocabulary of the specification *)

(** ** The error taxonomy *)

Inductive failure :=
| ValidationError | Unauthenticated | PrincipalNotFound | Forbidden
| NotFound | Conflict | ServerError.

(** The failure a response stands for, read off its status code and
    message: 400 is a validation error, except the refusal of a
    self-recovery (a conflict, also sent as 400); 404 is not-found, and
    from [protect] principal-not-found. *)
Definition failure_of (r : response) : option failure :=
  if Nat.eqb (status r) 400 then
    Some (if String.eqb (message r) "You cannot recover your own item"
          then Conflict else ValidationError)
  else if Nat.eqb (status r) 401 then Some Unauthenticated
  else if Nat.eqb (status r) 403 then Some Forbidden
  else if Nat.eqb (status r) 404 then
    Some (if String.eqb (message r) "User not found"
          then PrincipalNotFound else NotFound)
  else if Nat.eqb (status r) 500 then Some ServerError
  else None.

(** The failure of the identity resolver, if it fails. *)
Definition resolver_failure (x : response + user) : option failure :=
  match x with inl r => failure_of r | inr _ => None end.

(** A verified session token names no stored user: no user is stored
    under the ObjectId its [userId] denotes - a [userId] that is not a
    valid identifier denotes none -, or else no user has its [uid], or it
    carries neither. *)
Definition names_no_user {platform : Platform} (dec : session_claims)
    (us : collection) : Prop :=
  match truthy_str (sc_userId dec) with
  | Some uid => ObjectId_isValid uid = true → us !! Oid (ObjectId_hex uid) = None
  | None =>
      match truthy_str (sc_uid dec) with
      | Some x => ∀ k d, us !! k = Some d → get d "uid" ≠ VStr x
      | None => True
      end
  end.

(** The token carries a [userId] that is not a valid identifier. *)
Definition malformed_userId {platform : Platform} (dec : session_claims) : bool :=
  match truthy_str (sc_userId dec) with
  | Some uid => negb (ObjectId_isValid uid)
  | None => false
  end.

(** ** The operations on items and recoveries *)

Inductive operation := Create | Update | Recover | DeleteItem | UpdateRecovery.

Definition run {platform : Platform} (o : operation)
  : ambient -> user -> request -> store -> response * store :=
  match o with
  | Create => post_inventory
  | Update => patch_inventory
  | Recover => post_recover
  | DeleteItem => delete_inventory
  | UpdateRecovery => patch_recoveries
  end.

(** A sequence of calls, each with its principal and surroundings. *)
Record call := {
  call_op : operation;
  call_amb : ambient;
  call_user : user;
  call_req : request;
}.

Definition run_calls {platform : Platform} (cs : list call) (s : store) : store :=
  foldl (fun s c => (run (call_op c) (call_amb c) (call_user c) (call_req c) s).2)
        s cs.

(** The call is not an update that carries a [status] field. *)
Definition leaves_status (c : call) : Prop :=
  call_op c = Update → get (body (call_req c)) "status" = VUndefined.

(** The call passes the ownership test of the update route. *)
Definition may_update (amb : ambient) (u : user) (item : doc) : Prop :=
  strict_eq (get item "contactEmail") (get u.2 "email") = true
  ∨ node_env amb = Some "development".

(** ** Item status and recovery records *)

(** The recovery [r] refers to the item stored under [i]. *)
Definition references (r : doc) (i : id) : Prop :=
  get r "itemId" = value_of_id i.

Definition has_recovery (s : store) (i : id) : Prop :=
  ∃ k r, recoveries s !! k = Some r ∧ references r i.

Definition is_recovered (d : doc) : Prop :=
  get d "status" = VStr "recovered".

(** An item is recovered exactly when a recovery refers to it. *)
Definition status_consistent (s : store) : Prop :=
  ∀ i d, items s !! i = Some d → is_recovered d ↔ has_recovery s i.

(** Every recovery refers to a stored item. *)
Definition no_orphans (s : store) : Prop :=
  ∀ k r, recoveries s !! k = Some r →
         ∃ i, is_Some (items s !! i) ∧ references r i.

(** The two together: what the operations are to maintain. *)
Definition sound (s : store) : Prop := status_consistent s ∧ no_orphans s.

(** The recoveries that refer to [i]. *)
Definition recoveries_of (s : store) (i : id) : collection :=
  filter (fun kd : id * doc => eq_match (value_of_id i) (get kd.2 "itemId") = true)
         (recoveries s).

(** The identifier is stored under at most one of its two forms. *)
Definition single_form {platform : Platform} (ident : string) (c : collection) : Prop :=
  ObjectId_isValid ident = true →
  ¬ (is_Some (c !! Oid (ObjectId_hex ident)) ∧ is_Some (c !! Sid ident)).

(** * A platform and stores for the examples *)

Module Demo.

(** Identifiers of 24 hex digits are the valid ones, dates are a small
    table, and a few tokens verify. *)

Definition is_hex (a : Ascii.ascii) : bool :=
  let n := Ascii.nat_of_ascii a in
  (Nat.leb 48 n && Nat.leb n 57) || (Nat.leb 97 n && Nat.leb n 102)
  || (Nat.leb 65 n && Nat.leb n 70).

Definition hex24 (s : string) : bool :=
  Nat.eqb (String.length s) 24 && forallb is_hex (String.list_ascii_of_string s).

(** White space among the ASCII characters; the identifiers of the
    examples have no other. *)
Definition is_space (a : Ascii.ascii) : bool :=
  let n := Ascii.nat_of_ascii a in
  (Nat.leb 9 n && Nat.leb n 13) || Nat.eqb n 32.

Fixpoint trimStart (s : string) : string :=
  match s with
  | EmptyString => EmptyString
  | String a r => if is_space a then trimStart r else s
  end.

Fixpoint trimEnd (s : string) : string :=
  match s with
  | EmptyString => EmptyString
  | String a r =>
      match trimEnd r with
      | EmptyString => if is_space a then EmptyString else String a EmptyString
      | r' => String a r'
      end
  end.

Definition demo_trim (s : string) : string := trimEnd (trimStart s).

Definition demo_date (v : value) : option Z :=
  match v with
  | VStr s =>
      if String.eqb s "2024-01-01" then Some 1704067200000%Z
      else if String.eqb s "2024-01-05" then Some 1704412800000%Z
      else None
  | VNum n => Some n
  | _ => None
  end.

Definition demo_id_token (t : string) : option id_claims :=
  if String.eqb t "id-token-a"
  then Some {| c_email := "a@x.com"; c_uid := "uid-a";
               c_name := Some "A"; c_picture := None |}
  else None.

Definition demo_session (t : string) : option session_claims :=
  if String.eqb t "session-b"
  then Some {| sc_userId := None; sc_uid := Some "uid-b" |}
  else if String.eqb t "session-ghost"
  then Some {| sc_userId := None; sc_uid := Some "uid-ghost" |}
  else if String.eqb t "session-odd"
  then Some {| sc_userId := Some "not-an-id"; sc_uid := None |}
  else None.

Definition demo : Platform :=
  {| ObjectId_isValid := hex24;
     ObjectId_hex := fun s => s;
     new_Date := demo_date;
     Date_parse := demo_date;
     Number_toString := pretty;
     Date_toString := fun t => match t with
                               | Some n => "Date " +:+ pretty n
                               | None => "Invalid Date"
                               end;
     verifyIdToken := demo_id_token;
     jwt_verify := demo_session;
     trim := demo_trim |}.

Definition id_A : id := Oid "aaaaaaaaaaaaaaaaaaaaaaaa".
Definition id_B : id := Oid "bbbbbbbbbbbbbbbbbbbbbbbb".
Definition id_C : id := Oid "cccccccccccccccccccccccc".

Definition user_A : user :=
  (id_A, list_to_map [("name", VStr "A"); ("email", VStr "a@x.com");
                      ("uid", VStr "uid-a")]).
Definition user_B : user :=
  (id_B, list_to_map [("name", VStr "B"); ("email", VStr "b@x.com");
                      ("uid", VStr "uid-b")]).
Definition user_C : user :=
  (id_C, list_to_map [("name", VStr "C"); ("email", VStr "c@x.com");
                      ("uid", VStr "uid-c")]).

(** Three users, no item, no recovery. *)
Definition store0 : store :=
  {| users := list_to_map [user_A; user_B; user_C]; items := ∅; recoveries := ∅ |}.

(** Surroundings in which the transaction commits; [t] is the clock and
    [oid] the identifier the driver generates. *)
Definition production (t : Z) (oid : string) : ambient :=
  {| node_env := Some "production"; now := t; fresh := oid;
     fresh_user := oid; commit := true; tie_oid := true |}.

Definition development (t : Z) (oid : string) : ambient :=
  {| node_env := Some "development"; now := t; fresh := oid;
     fresh_user := oid; commit := true; tie_oid := true |}.

(** The same as [production], with a transaction that aborts. *)
Definition aborting (t : Z) (oid : string) : ambient :=
  {| node_env := Some "production"; now := t; fresh := oid;
     fresh_user := oid; commit := false; tie_oid := true |}.

Definition request_of (ident : string) (fields : list (string * value)) : request :=
  {| authorization := None; cookie_token := None;
     param_id := ident; body := list_to_map fields |}.

Definition wallet_id : string := "111111111111111111111111".

Definition wallet_fields : list (string * value) :=
  [("postType", VStr "lost"); ("thumbnail", VStr "u"); ("title", VStr "Wallet");
   ("category", VStr "Accessories"); ("location", VStr "Park");
   ("date", VStr "2024-01-01")].

Definition claim_fields : list (string * value) :=
  [("recoveredLocation", VStr "Station"); ("recoveredDate", VStr "2024-01-05")].

(** The wallet as user A posts it. *)
Definition wallet : doc :=
  new_item (platform := demo) (production 10 wallet_id) user_A (list_to_map wallet_fields).

(** The store after user A posted the wallet. *)
Definition store1 : store :=
  (post_inventory (platform := demo) (production 10 wallet_id) user_A
     (request_of "" wallet_fields) store0).2.

(** The store after user B recorded a recovery of the wallet. *)
Definition store2 : store :=
  (post_recover (platform := demo) (production 20 "222222222222222222222222") user_B
     (request_of wallet_id claim_fields) store1).2.

(** The wallet as it is stored after that recovery. *)
Definition wallet_recovered : doc :=
  list_to_map [("status", VStr "recovered"); ("updatedAt", VDate (Some 20%Z))] ∪ wallet.

(** A store that holds the wallet twice: under the ObjectId and, as a
    legacy record, under the same digits as a string. *)
Definition twin_store : store :=
  {| users := users store0;
     items := <[Sid wallet_id := wallet]> (<[Oid wallet_id := wallet]> ∅);
     recoveries := ∅ |}.

(** A store whose only recovery is a legacy record, kept under a string. *)
Definition legacy_store : store :=
  {| users := users store0;
     items := items store1;
     recoveries :=
       {[ Sid "legacy-1" :=
            list_to_map [("itemId", VOid wallet_id); ("notes", VStr "old")] ]} |}.

End Demo.

Import Demo.

(** * The login and listing routes *)

(** What these routes take from their libraries, beyond [Platform]. *)
Class Driver := {
  (** [jwt.sign(payload, JWT_SECRET, { expiresIn: "7d" })] when the clock
      reads [t]: the library stamps the token with its time of issue and
      of expiry, so the token depends on the clock *)
  jwt_sign : Z -> session_claims -> string;
  (** [{ $regex: p, $options: "i" }] as a test on strings; [None] when the
      server refuses the pattern *)
  regex_i : string -> option (string -> bool);
  (** the order of [sort]: does the first value sort before or with the
      second? *)
  sorts_before : value -> value -> bool;
  (** the equality match of a query operand that is an embedded document
      (it compares field by field, in order) *)
  embedded_eq : doc -> value -> bool;
  (** the hex string of [new ObjectId(v)] when [ObjectId.isValid(v)], for a
      value that is neither a string nor an ObjectId *)
  ObjectId_from : value -> option string;
}.

(** The payload [createToken] signs, one of two; the signing is [jwt_sign]. *)
Definition createToken (userIdOrUid : string) (isUid : bool) : session_claims :=
  if isUid
  then {| sc_userId := None; sc_uid := Some userIdOrUid |}
  else {| sc_userId := Some userIdOrUid; sc_uid := None |}.

(** The answer of the login route: the response, the [token] cookie it
    sets and the user it sends. *)
Record login_reply := {
  login_response : response;
  login_cookie : option string;
  login_user : option user;
}.

Definition login_failed (code : nat) (msg : string) : login_reply :=
  {| login_response := reply code msg; login_cookie := None; login_user := None |}.

(** The parameters of [GET /inventory], each absent or a string. *)
Record list_query := {
  q_type : option string;
  q_status : option string;
  q_category : option string;
  q_location : option string;
  q_search : option string;
}.

(** The answer of [GET /my-items]. *)
Record my_items := {
  emailUsed : string;
  itemsFound : nat;
  found : list (id * doc);
}.

Section Routes.
Context {platform : Platform} {driver : Driver}.

(** ** [POST /users/firebase-login] *)

Definition login_new_user (amb : ambient) (dec : id_claims) (b : doc) : doc :=
  list_to_map
    [("email", VStr (c_email dec));
     ("name", or_else (get b "name") (VStr "User"));
     ("password", VStr "");
     ("uid", VStr (c_uid dec));
     ("isAdmin", VBool false);
     ("photoURL", or_else (get b "photoURL") (VStr (str_or (c_picture dec) "")));
     ("createdAt", VDate (Some (now amb)));
     ("updatedAt", VDate (Some (now amb)))].

(** [updateData] of the branch for a user that exists; the three [if]s in
    their order, a later one overwriting an earlier one. *)
Definition login_update (dec : id_claims) (b : doc) (u : doc) : doc :=
  let name := get b "name" in
  let photoURL := get b "photoURL" in
  let d1 : doc :=
    if truthy name && negb (strict_eq (get u "name") name)
    then <["name" := name]> ∅ else ∅ in
  let d2 : doc :=
    if truthy photoURL then <["photoURL" := photoURL]> d1 else d1 in
  match truthy_str (c_picture dec) with
  | Some picture =>
      if negb (truthy (get u "photoURL"))
      then <["photoURL" := VStr picture]> d2 else d2
  | None => d2
  end.

(** The body of the [try]: the [uid] of the token, the user and the next
    store; [None] when something in it throws. *)
Definition login_try (amb : ambient) (b : doc) (s : store)
  : option (string * user * store) :=
  match get b "idToken" with
  | VStr idToken =>
      match verifyIdToken idToken with
      | None => None
      | Some dec =>
          match findOne "email" (VStr (c_email dec)) (users s) with
          | None =>
              let u := login_new_user amb dec b in
              match insertOne (Oid (fresh_user amb)) u (users s) with
              | Some us =>
                  Some (c_uid dec, (Oid (fresh_user amb), u), with_users s us)
              | None => None
              end
          | Some (i, u) =>
              let updateData := login_update dec b u in
              if Nat.eqb (size updateData) 0
              then Some (c_uid dec, (i, u), s)
              else
                let updateData' :=
                  <["updatedAt" := VDate (Some (now amb))]> updateData in
                Some (c_uid dec, (i, updateData' ∪ u),
                      with_users s (updateOne i updateData' (users s)))
          end
      end
  | _ => None   (* [verifyIdToken] rejects what is not a string *)
  end.

Definition firebase_login (amb : ambient) (req : request) (s : store)
  : login_reply * store :=
  if negb (truthy (get (body req) "idToken"))
  then (login_failed 400 "No ID token provided", s)
  else
    match login_try amb (body req) s with
    | Some (uid, u, s') =>
        ({| login_response := reply 200 "Logged in with Firebase";
            login_cookie := Some (jwt_sign (now amb) (createToken uid true));
            login_user := Some u |}, s')
    | None => (login_failed 401 "Invalid Firebase ID token", s)
    end.

(** ** Listings *)

(** [x] comes before or with [y] under [.sort({ createdAt: -1 })]. *)
Definition newer (x y : id * doc) : Prop :=
  sorts_before (get y.2 "createdAt") (get x.2 "createdAt") = true.

#[global] Instance newer_dec (x y : id * doc) : Decision (newer x y).
Proof. unfold newer. apply _. Defined.

(** [.sort({ createdAt: -1 })] *)
Definition newest_first (l : list (id * doc)) : list (id * doc) :=
  merge_sort newer l.

(** [collection.find(query)] for a query that is a test on documents. *)
Definition find (test : doc -> bool) (c : collection) : list (id * doc) :=
  filter (fun kd : id * doc => test kd.2 = true) (map_to_list c).

(** A regular expression matches the fields that are strings. *)
Definition regex_field (test : string -> bool) (v : value) : bool :=
  match v with VStr s => test s | _ => false end.

(** The query [GET /inventory] builds from its parameters; [None] when
    the server refuses a pattern, and [find] throws. *)
Definition list_test (q : list_query) : option (doc -> bool) :=
  let by_type : doc -> bool :=
    match truthy_str (q_type q) with
    | Some t => if String.eqb t "lost" || String.eqb t "found"
                then fun d => eq_match (VStr t) (get d "postType")
                else fun _ => true
    | None => fun _ => true
    end in
  let by_status : doc -> bool :=
    match truthy_str (q_status q) with
    | Some st => if String.eqb st "active" || String.eqb st "recovered"
                 then fun d => eq_match (VStr st) (get d "status")
                 else fun _ => true
    | None => fun _ => true
    end in
  let by_category : doc -> bool :=
    match truthy_str (q_category q) with
    | Some c => fun d => eq_match (VStr c) (get d "category")
    | None => fun _ => true
    end in
  let by_location : option (doc -> bool) :=
    match truthy_str (q_location q) with
    | Some p => (fun test d => regex_field test (get d "location")) <$> regex_i p
    | None => Some (fun _ => true)
    end in
  let by_search : option (doc -> bool) :=
    match truthy_str (q_search q) with
    | Some p => (fun test d => regex_field test (get d "title")
                               || regex_field test (get d "description")) <$> regex_i p
    | None => Some (fun _ => true)
    end in
  match by_location, by_search with
  | Some loc, Some search =>
      Some (fun d => by_type d && by_status d && by_category d && loc d && search d)
  | _, _ => None
  end.

(** [GET /inventory] *)
Definition list_inventory (q : list_query) (s : store) : response * list (id * doc) :=
  match list_test q with
  | Some test => (reply 200 "", newest_first (find test (items s)))
  | None => (reply 500 "Server error", [])
  end.

(** [GET /my-items]; [email] is [req.query.email]. *)
Definition get_my_items (u : user) (email : option string) (s : store)
  : response * option my_items :=
  match truthy_str email with
  | None => (reply 400 "Email is required", None)
  | Some e =>
      let its := newest_first
                   (find (fun d => eq_match (VStr e) (get d "contactEmail")) (items s)) in
      (reply 200 "", Some {| emailUsed := e; itemsFound := length its; found := its |})
  end.

(** The value at a dotted path of two names. *)
Definition get_in (d : doc) (outer inner : string) : value :=
  match get d outer with VObj m => get m inner | _ => VUndefined end.

(** The equality match [{ field: q }] for any operand: [undefined] is sent
    as [null], and [null] matches a field that is null or missing. *)
Definition query_match (q v : value) : bool :=
  match q with
  | VUndefined | VNull =>
      match v with VUndefined | VNull => true | _ => false end
  | VBool a => match v with VBool b => Bool.eqb a b | _ => false end
  | VNum a => match v with VNum b => (a =? b)%Z | _ => false end
  | VDate a => match v with VDate b => bool_decide (a = b) | _ => false end
  | VStr _ | VOid _ => eq_match q v
  | VObj m => embedded_eq m v
  end.

(** [ObjectId.isValid(v)] and then [new ObjectId(v)] on a stored value. *)
Definition ObjectId_of_value (v : value) : option string :=
  match v with
  | VOid h => Some h
  | VStr s => if ObjectId_isValid s then Some (ObjectId_hex s) else None
  | _ => ObjectId_from v
  end.

(** The item the listing attaches to a recovery: the stored one when
    [itemId] gives an ObjectId under which an item is stored, else the
    snapshot, else [null]. *)
Definition attached_item (r : doc) (its : collection) : value :=
  match ObjectId_of_value (get r "itemId") with
  | Some h =>
      match its !! Oid h with
      | Some d => VObj (<["_id" := VOid h]> d)
      | None => or_else (get r "originalItemData") VNull
      end
  | None => or_else (get r "originalItemData") VNull
  end.

(** [GET /recoveries] *)
Definition list_recoveries (u : user) (s : store) : response * list (id * doc) :=
  match ObjectId_new u.1 with
  | None => (reply 500 "Server error", [])
  | Some userId =>
      let mine (r : doc) : bool :=
        eq_match (VOid userId) (get_in r "recoveredBy" "userId")
        || query_match (get u.2 "email") (get_in r "originalOwner" "email") in
      (reply 200 "",
       (fun kr : id * doc => (kr.1, <["item" := attached_item kr.2 (items s)]> kr.2))
         <$> newest_first (find mine (recoveries s)))
  end.

End Routes.

(** * More vocabulary *)

(** A string that is not empty. *)
Definition filled (v : value) : Prop := ∃ s, v = VStr s ∧ s ≠ "".

(** The claimant and the owner a recovery records have different emails. *)
Definition claimant_differs (r : doc) : Prop :=
  strict_eq (get_in r "recoveredBy" "email") (get_in r "originalOwner" "email") = false.

Definition no_self_recovery (s : store) : Prop :=
  ∀ k r, recoveries s !! k = Some r → claimant_differs r.

(** The call is not a recover by a principal whose email is not a string. *)
Definition claims_with_email (c : call) : Prop :=
  call_op c = Recover → is_string (get (call_user c).2 "email") = true.

(** No two users share an email. *)
Definition unique_emails (s : store) : Prop :=
  ∀ k k' d d' e,
    users s !! k = Some d → users s !! k' = Some d' →
    get d "email" = VStr e → get d' "email" = VStr e → k = k'.

(** The fields of a user the login route may write. *)
Definition loginFields : list string := ["name"; "photoURL"; "updatedAt"].


(** The document passes every filter of the query: the type and the
    status when they are among the known ones, the category, and the
    patterns for the location and for the title or the description. *)
Definition passes {driver : Driver} (q : list_query) (d : doc) : Prop :=
  (∀ t, truthy_str (q_type q) = Some t → t = "lost" ∨ t = "found" →
        get d "postType" = VStr t)
  ∧ (∀ st, truthy_str (q_status q) = Some st → st = "active" ∨ st = "recovered" →
           get d "status" = VStr st)
  ∧ (∀ c, truthy_str (q_category q) = Some c → get d "category" = VStr c)
  ∧ (∀ p, truthy_str (q_location q) = Some p →
          ∃ test x, regex_i p = Some test ∧ get d "location" = VStr x ∧ test x = true)
  ∧ (∀ p, truthy_str (q_search q) = Some p →
          ∃ test x, regex_i p = Some test ∧ test x = true
                    ∧ (get d "title" = VStr x ∨ get d "description" = VStr x)).

(** The recovery is the principal's: recorded by them, or of an item whose
    owner has their email. *)
Definition concerns {platform : Platform} {driver : Driver} (u : user) (r : doc) : Prop :=
  (∃ h, ObjectId_new u.1 = Some h ∧ get_in r "recoveredBy" "userId" = VOid h)
  ∨ query_match (get u.2 "email") (get_in r "originalOwner" "email") = true.

(** * A driver and stores for the examples of these routes *)

Module DemoRoutes.
Import Demo.

Definition lower (a : Ascii.ascii) : Ascii.ascii :=
  let n := Ascii.nat_of_ascii a in
  if Nat.leb 65 n && Nat.leb n 90 then Ascii.ascii_of_nat (n + 32) else a.

Fixpoint lowercase (s : string) : string :=
  match s with
  | EmptyString => EmptyString
  | String a r => String (lower a) (lowercase r)
  end.

Fixpoint contains (p s : string) : bool :=
  String.prefix p s
  || match s with
     | EmptyString => false
     | String _ r => contains p r
     end.

(** Patterns are plain words, matched anywhere and in any case; a lone
    opening parenthesis is refused. *)
Definition demo_regex (p : string) : option (string -> bool) :=
  if String.eqb p "(" then None
  else Some (fun s => contains (lowercase p) (lowercase s)).

(** Dates sort by their time; anything else sorts before everything. *)
Definition demo_order (a b : value) : bool :=
  match a, b with
  | VDate (Some x), VDate (Some y) => (x <=? y)%Z
  | VDate (Some _), _ => false
  | _, _ => true
  end.

(** A token is its payload spelled out, then the time of issue. *)
Definition demo_sign (t : Z) (p : session_claims) : string :=
  match sc_uid p, sc_userId p with
  | Some u, _ => "uid:" +:+ u +:+ "@" +:+ pretty t
  | None, Some i => "usr:" +:+ i +:+ "@" +:+ pretty t
  | None, None => "nil:" +:+ "@" +:+ pretty t
  end.

Fixpoint before_at (s : string) : string :=
  match s with
  | EmptyString => EmptyString
  | String a r => if Ascii.eqb a "@" then EmptyString else String a (before_at r)
  end.

Definition demo_verify (t : string) : option session_claims :=
  let rest := before_at (String.substring 4 (String.length t - 4) t) in
  if String.prefix "uid:" t then Some {| sc_userId := None; sc_uid := Some rest |}
  else if String.prefix "usr:" t then Some {| sc_userId := Some rest; sc_uid := None |}
  else None.

Definition demo_id_token' (t : string) : option id_claims :=
  if String.eqb t "id-token-a"
  then Some {| c_email := "a@x.com"; c_uid := "uid-a2";
               c_name := Some "A"; c_picture := Some "pic-a" |}
  else if String.eqb t "id-token-d"
  then Some {| c_email := "d@x.com"; c_uid := "uid-d";
               c_name := Some "D"; c_picture := None |}
  else None.

(** The platform of [Demo], with these tokens. *)
Definition demo' : Platform :=
  {| ObjectId_isValid := hex24;
     ObjectId_hex := fun s => s;
     new_Date := demo_date;
     Date_parse := demo_date;
     Number_toString := pretty;
     Date_toString := fun t => match t with
                               | Some n => "Date " +:+ pretty n
                               | None => "Invalid Date"
                               end;
     verifyIdToken := demo_id_token';
     jwt_verify := demo_verify;
     trim := demo_trim |}.

Definition demo_driver : Driver :=
  {| jwt_sign := demo_sign;
     regex_i := demo_regex;
     sorts_before := demo_order;
     embedded_eq := fun _ _ => false;
     ObjectId_from := fun _ => None |}.

Definition login_request (fields : list (string * value)) : request :=
  {| authorization := None; cookie_token := None; param_id := "";
     body := list_to_map fields |}.

Definition cookie_request (tok : string) : request :=
  {| authorization := None; cookie_token := Some tok; param_id := ""; body := ∅ |}.

Definition bearer_request (tok : string) : request :=
  {| authorization := Some ("Bearer " +:+ tok); cookie_token := None;
     param_id := ""; body := ∅ |}.

Definition id_D : string := "dddddddddddddddddddddddd".

Definition no_filter : list_query :=
  {| q_type := None; q_status := None; q_category := None;
     q_location := None; q_search := None |}.

(** A second item, a found umbrella that user B posts into [store2]. *)
Definition umbrella_id : string := "444444444444444444444444".

Definition umbrella_fields : list (string * value) :=
  [("postType", VStr "found"); ("thumbnail", VStr "v"); ("title", VStr "Umbrella");
   ("category", VStr "Accessories"); ("location", VStr "Station hall");
   ("date", VStr "2024-01-05")].

Definition umbrella : doc :=
  new_item (platform := demo) (production 25 umbrella_id) user_B
    (list_to_map umbrella_fields).

Definition store3 : store :=
  (post_inventory (platform := demo) (production 25 umbrella_id) user_B
     (request_of "" umbrella_fields) store2).2.

End DemoRoutes.

Import DemoRoutes.

(** * Properties *)

(** ** Collections and lookups *)

Lemma eq_match_id (i : id) (v : value) :
  eq_match (value_of_id i) v = true ↔ v = value_of_id i.
Proof.
  destruct i as [h|h], v; simpl; try (split; [discriminate | congruence]).
  all: rewrite String.eqb_eq; split; congruence.
Qed.

Lemma eq_match_refl (i : id) : eq_match (value_of_id i) (value_of_id i) = true.
Proof. by apply eq_match_id. Qed.

Lemma eq_match_str (x : string) (v : value) :
  eq_match (VStr x) v = false ↔ v ≠ VStr x.
Proof.
  destruct v; simpl; try (split; [discriminate|done]).
  rewrite String.eqb_neq. split; congruence.
Qed.

Lemma value_of_id_inj (i j : id) : value_of_id i = value_of_id j → i = j.
Proof. destruct i, j; simpl; congruence. Qed.

Lemma findById_Some (i j : id) (d : doc) (c : collection) :
  findById i c = Some (j, d) ↔ j = i ∧ c !! i = Some d.
Proof.
  unfold findById. destruct (c !! i) as [d'|]; simpl.
  - split; [by intros [= <- <-]|by intros [-> [= ->]]].
  - split; [discriminate|by intros [_ ?]].
Qed.

Lemma findById_None (i : id) (c : collection) :
  findById i c = None ↔ c !! i = None.
Proof. unfold findById. by destruct (c !! i). Qed.

Lemma findOne_None (field : string) (q : value) (c : collection) :
  findOne field q c = None
  ↔ ∀ k d, c !! k = Some d → eq_match q (get d field) = false.
Proof.
  unfold findOne. split.
  - intros Hnone k d Hk.
    apply (find_none _ _ Hnone (k, d)).
    by apply list_elem_of_In, elem_of_map_to_list.
  - intros Hall. destruct (List.find _ _) as [[k d]|] eqn:Hfind; [|done].
    apply find_some in Hfind as [Hin Hm].
    apply list_elem_of_In, elem_of_map_to_list in Hin.
    simpl in Hm. by rewrite (Hall k d Hin) in Hm.
Qed.

Lemma insertOne_Some (i : id) (d : doc) (c c' : collection) :
  insertOne i d c = Some c' ↔ c !! i = None ∧ c' = <[i := d]> c.
Proof.
  unfold insertOne. destruct (c !! i).
  - split; [discriminate|by intros [? _]].
  - split; [by intros [= <-]|by intros [_ ->]].
Qed.

Lemma lookup_updateOne (i j : id) (upd : doc) (c : collection) :
  updateOne i upd c !! j
  = if decide (i = j) then (fun d => upd ∪ d) <$> c !! i else c !! j.
Proof. unfold updateOne. rewrite lookup_alter. by case_decide; subst. Qed.

Lemma updateOne_absent (i : id) (upd : doc) (c : collection) :
  c !! i = None → updateOne i upd c = c.
Proof.
  intros Hi. apply map_eq; intros j. rewrite lookup_updateOne.
  case_decide; subst; by rewrite ?Hi.
Qed.

Lemma lookup_deleteMany (field : string) (q : value) (c : collection) (k : id) (r : doc) :
  deleteMany field q c !! k = Some r
  ↔ c !! k = Some r ∧ eq_match q (get r field) = false.
Proof. unfold deleteMany. by rewrite map_lookup_filter_Some. Qed.

Lemma get_union (upd d : doc) (k : string) :
  get (upd ∪ d) k = match upd !! k with Some v => v | None => get d k end.
Proof.
  unfold get. rewrite lookup_union.
  destruct (upd !! k), (d !! k); reflexivity.
Qed.

Lemma lookup_union_doc (upd d : doc) (k : string) :
  (upd ∪ d) !! k = match upd !! k with Some v => Some v | None => d !! k end.
Proof. rewrite lookup_union. destruct (upd !! k), (d !! k); reflexivity. Qed.

Lemma store_eta (s : store) :
  {| users := users s; items := items s; recoveries := recoveries s |} = s.
Proof. by destruct s. Qed.

Section Lookup.
Context {platform : Platform}.

(** Both lookups return a stored document together with its key, and the
    key is the identifier read as a string or as an ObjectId. *)
Lemma find_item_Some amb ident (c : collection) i d :
  find_item amb ident c = Some (i, d) →
  c !! i = Some d
  ∧ (i = Sid ident ∨ (ObjectId_isValid ident = true ∧ i = Oid (ObjectId_hex ident))).
Proof.
  unfold find_item. destruct (ObjectId_isValid ident) eqn:Hv.
  - destruct (findById (Oid _) c) as [[a da]|] eqn:Ha;
      destruct (findById (Sid _) c) as [[b db]|] eqn:Hb;
      try apply findById_Some in Ha as [-> Ha];
      try apply findById_Some in Hb as [-> Hb];
      intros [= <- <-] || (destruct (tie_oid amb); intros [= <- <-]); eauto.
  - intros [-> Hd]%findById_Some. eauto.
Qed.

Lemma find_item_None amb ident (c : collection) :
  find_item amb ident c = None ↔
  c !! Sid ident = None
  ∧ (ObjectId_isValid ident = true → c !! Oid (ObjectId_hex ident) = None).
Proof.
  unfold find_item. destruct (ObjectId_isValid ident) eqn:Hv.
  - destruct (findById (Oid _) c) as [[a da]|] eqn:Ha;
      destruct (findById (Sid _) c) as [[b db]|] eqn:Hb;
      try apply findById_Some in Ha as [-> Ha];
      try apply findById_Some in Hb as [-> Hb];
      try apply findById_None in Ha; try apply findById_None in Hb.
    + split; [discriminate|]. intros [Hs _]. congruence.
    + split; [discriminate|]. intros [_ Ho]. specialize (Ho eq_refl). congruence.
    + split; [discriminate|]. intros [Hs _]. congruence.
    + split; [done|]. intros _. reflexivity.
  - rewrite findById_None. split; [|by intros [? _]].
    intros Hs. split; [done|discriminate].
Qed.

Lemma find_item_patch_Some ident (c : collection) i d :
  find_item_patch ident c = Some (i, d) → c !! i = Some d.
Proof.
  unfold find_item_patch. destruct (ObjectId_isValid ident).
  - destruct (findById (Oid _) c) as [[a da]|] eqn:Ha.
    + apply findById_Some in Ha as [-> Ha]. by intros [= <- <-].
    + by intros [-> Hd]%findById_Some.
  - by intros [-> Hd]%findById_Some.
Qed.

(** What [updateData] holds for a key after the loop over a list of fields. *)
Lemma lookup_collect (b : doc) (fields : list string) (acc : doc) (k : string) :
  foldl (fun (updateData : doc) (field : string) =>
           if defined (get b field)
           then <[field := written b field]> updateData
           else updateData) acc fields !! k
  = if decide (k ∈ fields ∧ defined (get b k) = true)
    then Some (written b k) else acc !! k.
Proof.
  revert acc. induction fields as [|f fs IH]; intros acc; cbn [foldl].
  - rewrite decide_False; [done|]. intros [Hk _]. by apply elem_of_nil in Hk.
  - rewrite IH. destruct (decide (k = f)) as [->|Hne].
    + destruct (defined (get b f)) eqn:Hd.
      * rewrite lookup_insert_eq.
        rewrite (decide_True (P := f ∈ f :: fs ∧ _)) by (split; [left|done]).
        by case_decide.
      * rewrite !decide_False; [done| |]; intros [_ ?]; congruence.
    + assert (k ∈ f :: fs ↔ k ∈ fs) as Hin.
      { rewrite elem_of_cons. split; [by intros [?|?]|by right]. }
      destruct (decide (k ∈ fs ∧ defined (get b k) = true)) as [Hy|Hn].
      * rewrite decide_True; [done|]. by rewrite Hin.
      * rewrite decide_False by (by rewrite Hin).
        destruct (defined (get b f)); [by rewrite lookup_insert_ne|done].
Qed.

Lemma lookup_collect_update (b : doc) (k : string) :
  collect_update b !! k
  = if decide (k ∈ allowedFields ∧ defined (get b k) = true)
    then Some (written b k) else None.
Proof. unfold collect_update. rewrite lookup_collect. by case_decide. Qed.

(** [protect] writes to the users only. *)
Lemma protect_frame amb req (s : store) :
  items (protect amb req s).1 = items s
  ∧ recoveries (protect amb req s).1 = recoveries s.
Proof.
  unfold protect, resolve_external.
  destruct (bearer_token _) as [tok|]; [|done].
  destruct (verifyIdToken tok) as [dec|]; [|done].
  destruct (findOne _ _ _) as [u|]; [done|].
  by destruct (insertOne _ _ _).
Qed.

End Lookup.

Lemma filteredData_lookup (b : doc) (k : string) :
  filteredData b !! k = if decide (k ∈ recoveryAllowedFields) then b !! k else None.
Proof.
  apply option_eq; intros v. unfold filteredData.
  rewrite map_lookup_filter_Some. simpl.
  destruct (decide _); [tauto|]. split; [tauto|discriminate].
Qed.

(** Membership of a given name in one of the two lists of fields. *)
Ltac listed :=
  unfold allowedFields, recoveryAllowedFields; rewrite !elem_of_cons; tauto.
Ltac unlisted :=
  unfold allowedFields, recoveryAllowedFields;
  rewrite !elem_of_cons, elem_of_nil; intuition discriminate.

Lemma itemId_not_allowed : "itemId" ∉ recoveryAllowedFields.
Proof. unlisted. Qed.

Lemma updatedAt_not_allowed : "updatedAt" ∉ allowedFields.
Proof. unlisted. Qed.

(** ** String helpers *)

Example split_colon : split ":"%char "abc:de:f" = ["abc"; "de"; "f"].
Proof. reflexivity. Qed.

Example split_none : split ":"%char "abc" = ["abc"].
Proof. reflexivity. Qed.

Example trim_both : demo_trim "  a b  " = "a b".
Proof. reflexivity. Qed.

Example patch_ident_cleans :
  patch_ident (platform := demo) {| authorization := None; cookie_token := None;
                 param_id := " 42:1 "; body := ∅ |} = "42".
Proof. reflexivity. Qed.

Example bearer_second_piece :
  bearer_token (Some "Bearer abc def") = Some "abc"
  ∧ bearer_token (Some "Basic abc") = None
  ∧ bearer_token None = None.
Proof. repeat split; reflexivity. Qed.

(** ** The scenarios of the specification *)

Example scenario_create :
  (post_inventory (platform := demo) (production 10 wallet_id) user_A
     (request_of "" wallet_fields) store0).1 = reply 201 "Item added successfully"
  ∧ items store1 !! Oid wallet_id = Some wallet
  ∧ get wallet "status" = VStr "not-recovered"
  ∧ get wallet "contactEmail" = VStr "a@x.com".
Proof. repeat split; reflexivity. Qed.

Example scenario_recover :
  (post_recover (platform := demo) (production 20 "222222222222222222222222") user_B
     (request_of wallet_id claim_fields) store1).1
  = reply 200 "Item recovery recorded successfully"
  ∧ items store2 !! Oid wallet_id = Some wallet_recovered
  ∧ get wallet_recovered "status" = VStr "recovered"
  ∧ size (recoveries store2) = 1.
Proof. repeat split; reflexivity. Qed.

Example scenario_self_recover :
  post_recover (platform := demo) (production 20 "222222222222222222222222") user_A
     (request_of wallet_id claim_fields) store1
  = (reply 400 "You cannot recover your own item", store1).
Proof. reflexivity. Qed.

Example scenario_bad_date :
  post_recover (platform := demo) (production 20 "222222222222222222222222") user_B
     (request_of wallet_id [("recoveredLocation", VStr "Station");
                            ("recoveredDate", VStr "not-a-date")]) store1
  = (reply 400 "Invalid recovery date", store1).
Proof. reflexivity. Qed.

Example scenario_delete :
  delete_inventory (platform := demo) (production 30 "") user_A (request_of wallet_id []) store2
  = (reply 200 "Item deleted successfully", store0).
Proof. reflexivity. Qed.

(** ** Item status and recovery records

    Each operation keeps [sound]: the status of an item says whether a
    recovery refers to it, and every recovery refers to a stored item. *)

Section Consistency.
Context {platform : Platform}.

Lemma references_inj (r : doc) (i j : id) :
  references r i → references r j → i = j.
Proof. unfold references. intros Hi Hj. apply value_of_id_inj. congruence. Qed.

Lemma new_item_status amb u b : get (new_item amb u b) "status" = VStr "not-recovered".
Proof. reflexivity. Qed.

Lemma recovery_data_itemId amb i item c u b t :
  get (recovery_data amb i item c u b t) "itemId" = value_of_id i.
Proof. reflexivity. Qed.

Lemma create_sound amb u req s :
  sound s → sound (post_inventory amb u req s).2.
Proof.
  intros [Hc Ho]. unfold post_inventory.
  destruct (negb _); [done|].
  destruct (insertOne _ _ _) as [its|] eqn:Hins; [|done].
  apply insertOne_Some in Hins as [Hfresh ->]. simpl.
  assert (¬ has_recovery s (Oid (fresh amb))) as Hnone.
  { intros (k & r & Hr & Href). destruct (Ho k r Hr) as (i & [d Hi] & Hri).
    rewrite (references_inj r _ _ Href Hri) in Hfresh. congruence. }
  split.
  - intros i d. simpl. rewrite lookup_insert_Some.
    intros [[<- <-]|[Hne Hi]].
    + unfold is_recovered. rewrite new_item_status. split; [discriminate|].
      intros Hr. by destruct Hnone.
    + apply (Hc i d Hi).
  - intros k r Hr. destruct (Ho k r Hr) as (i & Hi & Href).
    exists i. split; [|done]. simpl. rewrite lookup_insert_is_Some. 
    destruct (decide (Oid (fresh amb) = i)); auto.
Qed.

Lemma update_sound amb u req s :
  get (body req) "status" = VUndefined →
  sound s → sound (patch_inventory amb u req s).2.
Proof.
  intros Hst [Hc Ho]. unfold patch_inventory.
  destruct (find_item_patch _ _) as [[i item]|] eqn:Hf; [|done].
  apply find_item_patch_Some in Hf.
  destruct (_ && _); [done|]. simpl.
  split.
  - intros j d. simpl. rewrite lookup_updateOne.
    destruct (decide (i = j)) as [<-|Hne]; [|apply Hc].
    rewrite Hf. simpl. intros [= <-].
    rewrite <- (Hc i item Hf). unfold is_recovered.
    rewrite get_union, lookup_insert_ne by done.
    rewrite lookup_collect_update, decide_False; [done|].
    intros [_ Hd]. by rewrite Hst in Hd.
  - intros k r Hr. destruct (Ho k r Hr) as (j & Hj & Href).
    exists j. split; [|done]. simpl. rewrite lookup_updateOne.
    destruct (decide (i = j)) as [<-|Hne]; [|done].
    rewrite Hf. by eexists.
Qed.

Lemma recover_sound amb u req s :
  sound s → sound (post_recover amb u req s).2.
Proof.
  intros [Hc Ho]. unfold post_recover.
  destruct (find_item _ _ _) as [[i item]|] eqn:Hf; [|done].
  apply find_item_Some in Hf as [Hf _].
  destruct (_ || _); [done|].
  destruct (strict_eq _ _); [done|].
  destruct (new_Date _) as [t|]; [|done].
  destruct (ObjectId_new _) as [c|]; [|done].
  unfold recover_txn. destruct (commit amb); [|done].
  destruct (insertOne _ _ _) as [recs|] eqn:Hins; [|done].
  apply insertOne_Some in Hins as [Hfresh ->]. simpl.
  set (rd := recovery_data _ _ _ _ _ _ _).
  assert (references rd i) as Hrd by apply recovery_data_itemId.
  split.
  - intros j d. simpl. rewrite lookup_updateOne.
    destruct (decide (i = j)) as [<-|Hne].
    + rewrite Hf. simpl. intros [= <-]. split.
      * intros _. exists (Oid (fresh amb)), rd. simpl.
        by rewrite lookup_insert_eq.
      * intros _. unfold is_recovered. by rewrite get_union, lookup_insert_eq.
    + intros Hj. rewrite (Hc j d Hj). split.
      * intros (k & r & Hr & Href). exists k, r. split; [|done]. simpl.
        rewrite lookup_insert_ne; [done|]. intros <-. congruence.
      * intros (k & r & Hr & Href). simpl in Hr.
        apply lookup_insert_Some in Hr as [[<- <-]|[_ Hr]].
        -- destruct Hne. by apply (references_inj rd).
        -- by exists k, r.
  - intros k r. simpl. rewrite lookup_insert_Some.
    intros [[<- <-]|[_ Hr]].
    + exists i. split; [|done]. rewrite lookup_updateOne, decide_True by done.
      rewrite Hf. by eexists.
    + destruct (Ho k r Hr) as (j & Hj & Href). exists j. split; [|done].
      rewrite lookup_updateOne. destruct (decide (i = j)) as [<-|]; [|done].
      rewrite Hf. by eexists.
Qed.

Lemma delete_sound amb u req s :
  sound s → sound (delete_inventory amb u req s).2.
Proof.
  intros [Hc Ho]. unfold delete_inventory.
  destruct (find_item _ _ _) as [[i item]|] eqn:Hf; [|done].
  destruct (delete_refused _ _); [done|].
  unfold delete_txn. destruct (commit amb); [|done]. simpl.
  assert (∀ j r, references r j → j ≠ i →
                 eq_match (value_of_id i) (get r "itemId") = false) as Hkeep.
  { intros j r Href Hne. destruct (eq_match _ _) eqn:Hm; [|done].
    apply eq_match_id in Hm. destruct Hne. by apply (references_inj r). }
  split.
  - intros j d. simpl. unfold deleteOne. rewrite lookup_delete_Some.
    intros [Hne Hj]. rewrite (Hc j d Hj). split.
    + intros (k & r & Hr & Href). exists k, r. split; [|done]. simpl.
      apply lookup_deleteMany. split; [done|]. by apply (Hkeep j).
    + intros (k & r & Hr & Href). simpl in Hr.
      apply lookup_deleteMany in Hr as [Hr _]. by exists k, r.
  - intros k r. simpl. rewrite lookup_deleteMany. intros [Hr Hm].
    destruct (Ho k r Hr) as (j & Hj & Href). exists j. split; [|done].
    unfold deleteOne. rewrite lookup_delete_is_Some. split; [|done].
    intros <-. unfold references in Href.
    rewrite Href, eq_match_refl in Hm. discriminate.
Qed.

Lemma update_recovery_sound amb u req s :
  sound s → sound (patch_recoveries amb u req s).2.
Proof.
  intros [Hc Ho].
  assert (∀ i upd, sound {| users := users s; items := items s;
            recoveries := updateOne i (filteredData upd) (recoveries s) |}) as Hs.
  { intros i upd.
    assert (∀ r, get (filteredData upd ∪ r) "itemId" = get r "itemId") as Hid.
    { intros r. rewrite get_union, filteredData_lookup.
      by rewrite decide_False by apply itemId_not_allowed. }
    split.
    - intros j d Hj. simpl in Hj. rewrite (Hc j d Hj). split.
      + intros (k & r & Hr & Href). simpl.
        destruct (decide (i = k)) as [<-|Hne].
        * exists i, (filteredData upd ∪ r). simpl.
          rewrite lookup_updateOne, decide_True, Hr by done. split; [done|].
          unfold references. by rewrite Hid.
        * exists k, r. simpl. by rewrite lookup_updateOne, decide_False.
      + intros (k & r & Hr & Href). simpl in Hr. rewrite lookup_updateOne in Hr.
        destruct (decide (i = k)) as [<-|Hne]; [|by exists k, r].
        destruct (recoveries s !! i) as [r0|] eqn:Hr0; [|done].
        simpl in Hr. injection Hr as <-. exists i, r0. split; [done|].
        unfold references in *. by rewrite <- Hid.
    - intros k r. simpl. rewrite lookup_updateOne.
      destruct (decide (i = k)) as [<-|Hne]; [|apply Ho].
      destruct (recoveries s !! i) as [r0|] eqn:Hr0; [|done].
      simpl. intros [= <-]. destruct (Ho i r0 Hr0) as (j & Hj & Href).
      exists j. split; [done|]. unfold references in *. by rewrite Hid. }
  unfold patch_recoveries.
  destruct (negb _); [done|]. destruct (_ =? _)%nat; [done|].
  destruct (_ =? _)%nat; apply Hs.
Qed.

End Consistency.

Lemma run_sound {platform : Platform} o amb u req s :
  sound s →
  (o = Update → get (body req) "status" = VUndefined) →
  sound (run o amb u req s).2.
Proof.
  intros Hs Hu. destruct o; simpl.
  - by apply create_sound.
  - by apply update_sound; [apply Hu|].
  - by apply recover_sound.
  - by apply delete_sound.
  - by apply update_recovery_sound.
Qed.

(** Soundness looks at the items and the recoveries only. *)
Lemma sound_frame (s s' : store) :
  items s' = items s → recoveries s' = recoveries s → sound s → sound s'.
Proof.
  intros Hi Hr [Hc Ho]. split.
  - intros i d. rewrite Hi. intros Hd. rewrite (Hc i d Hd).
    unfold has_recovery. by rewrite Hr.
  - intros k r. rewrite Hr. intros Hk. rewrite Hi. by apply (Ho k).
Qed.

(** The same through [protect], which writes to the users only. *)
Lemma protected_run_sound {platform : Platform} o amb req s :
  sound s →
  (o = Update → get (body req) "status" = VUndefined) →
  sound (protected (run o) amb req s).2.
Proof.
  intros Hs Hu. unfold protected.
  destruct (protect_frame amb req s) as [Hi Hr].
  destruct (protect amb req s) as [s' [r|u]]; simpl in *.
  - by apply (sound_frame s).
  - apply run_sound; [|done]. by apply (sound_frame s).
Qed.

Lemma empty_sound (us : collection) :
  sound {| users := us; items := ∅; recoveries := ∅ |}.
Proof.
  split.
  - intros i d Hi. simpl in Hi. by rewrite lookup_empty in Hi.
  - intros k r Hr. simpl in Hr. by rewrite lookup_empty in Hr.
Qed.

Lemma store1_sound : sound store1.
Proof. apply (create_sound (platform := demo)), empty_sound. Qed.

Lemma store2_sound : sound store2.
Proof. apply (recover_sound (platform := demo)), store1_sound. Qed.

(** C1, as stated, fails: the owner of the wallet sets its status to
    ["recovered"] through the update route, in a store that holds no
    recovery at all. *)
Lemma update_breaks_status_consistency :
  let req := request_of wallet_id [("status", VStr "recovered")] in
  let out := run (platform := demo) Update (production 40 "") user_A req store1 in
  sound store1
  ∧ out.1 = reply 200 "Item updated successfully"
  ∧ recoveries out.2 = ∅
  ∧ ¬ status_consistent out.2.
Proof.
  intros req out.
  split; [apply store1_sound|]. split; [reflexivity|]. split; [reflexivity|].
  set (s' := out.2). intros Hc.
  assert (flip get "status" <$> items s' !! Oid wallet_id = Some (VStr "recovered"))
    as Hd by reflexivity.
  destruct (items s' !! Oid wallet_id) as [d|] eqn:Hi; [|discriminate].
  injection Hd as Hd.
  destruct (proj1 (Hc _ _ Hi) Hd) as (k & r & Hr & _).
  assert (recoveries s' = ∅) as He by reflexivity.
  by rewrite He, lookup_empty in Hr.
Qed.

(** C1 (amended): start from a store where an item is recovered exactly
    when a recovery refers to it and every recovery refers to a stored
    item (the empty store is one).  After any sequence of create, update,
    recover, deleteItem and updateRecovery calls in which no update
    carries a [status] field, the store is such a store again: the status
    of every item says whether a recovery refers to it. *)
Theorem operations_keep_status_consistent {platform : Platform} (cs : list call) (s : store) :
  sound s →
  Forall leaves_status cs →
  sound (run_calls cs s).
Proof.
  intros Hs Hcs. revert s Hs.
  induction Hcs as [|c cs Hc _ IH]; intros s Hs; [done|].
  unfold run_calls. cbn [foldl]. apply IH. by apply run_sound.
Qed.

(** User A posts the wallet, user B records its recovery, user A renames
    it. *)
Lemma operations_keep_status_consistent_witness :
  let post := {| call_op := Create; call_amb := production 10 wallet_id;
                 call_user := user_A; call_req := request_of "" wallet_fields |} in
  let claim := {| call_op := Recover;
                  call_amb := production 20 "222222222222222222222222";
                  call_user := user_B; call_req := request_of wallet_id claim_fields |} in
  let rename := {| call_op := Update; call_amb := production 40 "";
                   call_user := user_A;
                   call_req := request_of wallet_id [("title", VStr "Purse")] |} in
  sound (run_calls (platform := demo) [post; claim; rename] store0).
Proof.
  intros post claim rename.
  apply (operations_keep_status_consistent (platform := demo) [post; claim; rename] store0).
  - apply empty_sound.
  - apply Forall_cons. split; [by intros [=]|].
    apply Forall_cons. split; [by intros [=]|].
    apply Forall_cons. split; [|by apply Forall_nil].
    intros _. reflexivity.
Defined.

(** ** Self-recovery *)

(** C2, as stated, fails: user A claims the recovery of their own wallet
    with an empty claim; the route answers "Missing required fields", a
    validation error, before it compares the two emails. *)
Lemma self_recovery_without_claim_fields :
  find_item (platform := demo) (production 20 "") wallet_id (items store1)
  = Some (Oid wallet_id, wallet)
  ∧ strict_eq (get user_A.2 "email") (get wallet "contactEmail") = true
  ∧ post_recover (platform := demo) (production 20 "") user_A
      (request_of wallet_id []) store1
    = (reply 400 "Missing required fields", store1)
  ∧ failure_of (reply 400 "Missing required fields") = Some ValidationError
  ∧ failure_of (reply 400 "Missing required fields") ≠ Some Conflict.
Proof. repeat split; (reflexivity || discriminate). Qed.

(** C2 (amended): when the principal's email equals the item's
    [contactEmail], recover always fails with status 400 and writes
    nothing; the failure is a conflict whenever [recoveredLocation] and
    [recoveredDate] are both present (also when the date does not parse),
    and a validation error when one of them is missing. *)
Theorem self_recovery_rejected {platform : Platform} amb u req s i item :
  find_item amb (param_id req) (items s) = Some (i, item) →
  strict_eq (get u.2 "email") (get item "contactEmail") = true →
  (post_recover amb u req s).2 = s
  ∧ status (post_recover amb u req s).1 = 400
  ∧ failure_of (post_recover amb u req s).1
    = Some (if truthy (get (body req) "recoveredLocation")
               && truthy (get (body req) "recoveredDate")
            then Conflict else ValidationError).
Proof.
  intros Hf Heq. unfold post_recover. rewrite Hf, Heq.
  destruct (truthy (get (body req) "recoveredLocation")),
           (truthy (get (body req) "recoveredDate")); simpl; done.
Qed.

(** User A claims their own wallet with a date that does not parse. *)
Lemma self_recovery_rejected_witness :
  let req := request_of wallet_id [("recoveredLocation", VStr "Station");
                                   ("recoveredDate", VStr "not-a-date")] in
  let out := post_recover (platform := demo) (production 20 "") user_A req store1 in
  out.2 = store1 ∧ status out.1 = 400 ∧ failure_of out.1 = Some Conflict.
Proof.
  intros req out.
  assert (find_item (platform := demo) (production 20 "") (param_id req) (items store1)
          = Some (Oid wallet_id, wallet)) as Hf by reflexivity.
  assert (strict_eq (get user_A.2 "email") (get wallet "contactEmail") = true) as Heq
    by reflexivity.
  pose proof (self_recovery_rejected (platform := demo) (production 20 "") user_A req
                store1 (Oid wallet_id) wallet Hf Heq) as (Hs & Hc & Hfail).
  split; [exact Hs|]. split; [exact Hc|].
  fold out in Hfail. rewrite Hfail. reflexivity.
Defined.

(** ** Ownership *)

(** C3, as stated, fails: with [NODE_ENV] set to ["development"] the update
    route skips the ownership test, and user B changes the wallet of
    user A. *)
Lemma update_by_stranger_in_development :
  let req := request_of wallet_id [("title", VStr "Mine")] in
  let out := patch_inventory (platform := demo) (development 40 "") user_B req store1 in
  find_item_patch (platform := demo) (patch_ident (platform := demo) req) (items store1)
  = Some (Oid wallet_id, wallet)
  ∧ strict_eq (get wallet "contactEmail") (get user_B.2 "email") = false
  ∧ out.1 = reply 200 "Item updated successfully"
  ∧ flip get "title" <$> items out.2 !! Oid wallet_id = Some (VStr "Mine")
  ∧ failure_of out.1 ≠ Some Forbidden.
Proof. repeat split; (reflexivity || discriminate). Qed.

(** C3 (amended): for an item that exists, update fails with Forbidden
    exactly when the emails differ and [NODE_ENV] is not ["development"];
    deleteItem fails with Forbidden exactly when the emails differ and the
    item's [userId] is absent or not the principal's identifier, whatever
    the environment. *)
Theorem ownership_guard {platform : Platform} amb u requ reqd s i item :
  find_item_patch (patch_ident requ) (items s) = Some (i, item) →
  find_item amb (param_id reqd) (items s) = Some (i, item) →
  (failure_of (patch_inventory amb u requ s).1 = Some Forbidden
   ↔ strict_eq (get item "contactEmail") (get u.2 "email") = false
     ∧ node_env amb ≠ Some "development")
  ∧ (failure_of (delete_inventory amb u reqd s).1 = Some Forbidden
     ↔ strict_eq (get item "contactEmail") (get u.2 "email") = false
       ∧ (truthy (get item "userId") = false
          ∨ toString (get item "userId") ≠ Some (id_toString u.1))).
Proof.
  intros Hu Hd. split.
  - unfold patch_inventory. rewrite Hu.
    destruct (strict_eq _ _); simpl.
    + rewrite andb_false_r. simpl. split; [discriminate|]. by intros [? _].
    + rewrite andb_true_r. case_bool_decide as Hdev; simpl.
      * split; [discriminate|]. by intros [_ ?].
      * split; done.
  - unfold delete_inventory, delete_refused. rewrite Hd.
    destruct (strict_eq _ _); simpl.
    + rewrite andb_false_r. unfold delete_txn.
      destruct (commit amb); simpl; (split; [discriminate|]); by intros [? _].
    + rewrite andb_true_r. destruct (truthy (get item "userId")); simpl.
      * case_bool_decide as Hid; simpl.
        -- unfold delete_txn. destruct (commit amb); simpl;
             (split; [discriminate|]); intros [_ [?|?]]; done.
        -- split; [|done]. intros _. split; [done|]. by right.
      * split; [|done]. intros _. split; [done|]. by left.
Qed.

(** In production, user B may neither update nor delete the wallet of
    user A. *)
Lemma ownership_guard_witness :
  let req := request_of wallet_id [("title", VStr "Mine")] in
  failure_of (patch_inventory (platform := demo) (production 40 "") user_B req store1).1
  = Some Forbidden
  ∧ failure_of (delete_inventory (platform := demo) (production 40 "") user_B req store1).1
    = Some Forbidden.
Proof.
  intros req.
  assert (find_item_patch (platform := demo) (patch_ident (platform := demo) req) (items store1)
          = Some (Oid wallet_id, wallet)) as Hu by reflexivity.
  assert (find_item (platform := demo) (production 40 "") (param_id req) (items store1)
          = Some (Oid wallet_id, wallet)) as Hd by reflexivity.
  assert (strict_eq (get wallet "contactEmail") (get user_B.2 "email") = false) as Hne
    by reflexivity.
  assert (truthy (get wallet "userId") = false) as Hno by reflexivity.
  pose proof (ownership_guard (platform := demo) (production 40 "") user_B req req
                store1 (Oid wallet_id) wallet Hu Hd) as [Hpatch Hdelete].
  split.
  - apply Hpatch. split; [exact Hne|discriminate].
  - apply Hdelete. split; [exact Hne|by left].
Defined.

(** ** Deleting an item *)

(** C4, as stated, fails: the store holds the wallet under the ObjectId
    and under the same digits as a string.  Deleting by these digits
    removes the first; the lookup by the same digits then answers with the
    second instead of NotFound. *)
Lemma lookup_after_delete_finds_twin :
  let req := request_of wallet_id [] in
  let out := delete_inventory (platform := demo) (production 30 "") user_A req twin_store in
  out.1 = reply 200 "Item deleted successfully"
  ∧ items out.2 !! Oid wallet_id = None
  ∧ get_inventory (platform := demo) (production 31 "") req out.2
    = (reply 200 "", Some (Sid wallet_id, wallet))
  ∧ failure_of (get_inventory (platform := demo) (production 31 "") req out.2).1
    ≠ Some NotFound.
Proof. repeat split; (reflexivity || discriminate). Qed.

(** C4 (amended): deleteItem of a stored item either fails and leaves the
    store as it was, or succeeds and then the item is gone together with
    every recovery that referred to it, all other items and recoveries
    staying; after a success the lookup by the same identifier fails with
    NotFound, provided the store did not hold that identifier under both
    of its forms. *)
Theorem delete_cascades {platform : Platform} amb u req s i item :
  find_item amb (param_id req) (items s) = Some (i, item) →
  (status (delete_inventory amb u req s).1 ≠ 200 →
   (delete_inventory amb u req s).2 = s)
  ∧ (status (delete_inventory amb u req s).1 = 200 →
     items (delete_inventory amb u req s).2 = delete i (items s)
     ∧ (∀ k r, recoveries (delete_inventory amb u req s).2 !! k = Some r
               ↔ recoveries s !! k = Some r ∧ ¬ references r i)
     ∧ (single_form (param_id req) (items s) →
        ∀ amb', failure_of (get_inventory amb' req (delete_inventory amb u req s).2).1
                = Some NotFound)).
Proof.
  intros Hf. unfold delete_inventory. rewrite Hf.
  destruct (delete_refused _ _); [by split|].
  unfold delete_txn. destruct (commit amb); [|by split].
  simpl. split; [done|]. intros _.
  apply find_item_Some in Hf as [Hi Hform].
  split; [done|]. split.
  - intros k r. rewrite lookup_deleteMany. unfold references.
    split; intros [Hr Hm]; (split; [done|]).
    + intros Href. by rewrite Href, eq_match_refl in Hm.
    + destruct (eq_match _ _) eqn:Hm'; [|done].
      by apply eq_match_id in Hm'.
  - intros Hsingle amb'. unfold get_inventory. simpl.
    assert (find_item amb' (param_id req) (deleteOne i (items s)) = None) as ->; [|done].
    apply find_item_None. unfold deleteOne. rewrite !lookup_delete_None.
    destruct Hform as [->|[Hv ->]].
    + split; [by left|]. intros Hv. right.
      destruct (items s !! Oid _) eqn:Ho; [|done].
      destruct (Hsingle Hv). split; by eexists.
    + split; [|by left]. right.
      destruct (items s !! Sid _) eqn:Hs; [|done].
      destruct (Hsingle Hv). split; by eexists.
Qed.

(** User A deletes the wallet after user B recorded its recovery. *)
Lemma delete_cascades_witness :
  let req := request_of wallet_id [] in
  let out := delete_inventory (platform := demo) (production 30 "") user_A req store2 in
  status out.1 = 200
  ∧ items out.2 !! Oid wallet_id = None
  ∧ (∀ k r, recoveries out.2 !! k = Some r → ¬ references r (Oid wallet_id))
  ∧ failure_of (get_inventory (platform := demo) (production 31 "") req out.2).1
    = Some NotFound.
Proof.
  intros req out.
  assert (find_item (platform := demo) (production 30 "") (param_id req) (items store2)
          = Some (Oid wallet_id, wallet_recovered)) as Hf by reflexivity.
  assert (status out.1 = 200) as Hok by reflexivity.
  pose proof (proj2 (delete_cascades (platform := demo) (production 30 "") user_A req store2
                       (Oid wallet_id) wallet_recovered Hf) Hok)
    as (Hit & Hrec & Hget).
  split; [exact Hok|]. split; [|split].
  - fold out in Hit. rewrite Hit. apply lookup_delete_eq.
  - intros k r Hr. by apply Hrec in Hr as [_ Hr].
  - apply Hget. intros _ [_ [d Hd]]. discriminate Hd.
Defined.

(** A delete whose transaction aborts removes neither the item nor the
    recovery. *)
Example delete_aborted :
  delete_inventory (platform := demo) (aborting 30 "") user_A (request_of wallet_id []) store2
  = (reply 500 "Server error", store2).
Proof. reflexivity. Qed.

(** ** Identity resolution *)

Section Resolver.
Context {platform : Platform}.

Lemma session_user_missing (dec : session_claims) (us : collection) :
  malformed_userId dec = false →
  (session_user dec us = Some None ↔ names_no_user dec us).
Proof.
  unfold malformed_userId, names_no_user, session_user.
  destruct (truthy_str (sc_userId dec)) as [uid|].
  - intros Hv%negb_false_iff. rewrite Hv. split.
    + intros [= Hno%findById_None] _. exact Hno.
    + intros Hno. f_equal. apply findById_None. by apply Hno.
  - intros _. destruct (truthy_str (sc_uid dec)) as [x|]; [|done]. split.
    + intros [= Hno] k d Hk. apply eq_match_str. revert k d Hk. by apply findOne_None.
    + intros Hno. f_equal. apply findOne_None.
      intros k d Hk. apply eq_match_str. by apply (Hno k).
Qed.

(** A session token whose [userId] claim is not a valid identifier is
    answered as a failed token: the constructor throws inside the [try]. *)
Lemma session_user_malformed (dec : session_claims) (us : collection) uid :
  truthy_str (sc_userId dec) = Some uid →
  ObjectId_isValid uid = false →
  session_user dec us = None.
Proof. unfold session_user. by intros -> ->. Qed.

End Resolver.

(** C5, as stated, fails: the bearer token does not verify, the session
    token of the cookie does, and no user is stored for the [userId] it
    carries; yet that [userId] is not a valid identifier, and [protect]
    answers Unauthenticated, not PrincipalNotFound. *)
Lemma malformed_userId_not_principal_not_found :
  let req := {| authorization := Some "Bearer expired"; cookie_token := Some "session-odd";
                param_id := ""; body := ∅ |} in
  let dec := {| sc_userId := Some "not-an-id"; sc_uid := None |} in
  bearer_token (authorization req) = Some "expired"
  ∧ verifyIdToken (Platform := demo) "expired" = None
  ∧ jwt_verify (Platform := demo) "session-odd" = Some dec
  ∧ names_no_user (platform := demo) dec (users store0)
  ∧ (∀ k d, users store0 !! k = Some d → k ≠ Oid "not-an-id" ∧ k ≠ Sid "not-an-id")
  ∧ protect (platform := demo) (production 50 "") req store0
    = (store0, inl (reply 401 "Not authorized, token failed"))
  ∧ failure_of (reply 401 "Not authorized, token failed") = Some Unauthenticated
  ∧ failure_of (reply 401 "Not authorized, token failed") ≠ Some PrincipalNotFound.
Proof.
  intros req dec. do 3 (split; [reflexivity|]).
  split; [intros Hv; discriminate Hv|].
  split; [|repeat split; (reflexivity || discriminate)].
  intros k d Hk. split; intros ->; discriminate Hk.
Qed.

(** C5 (amended): when the bearer token of a request does not verify,
    [protect] writes nothing and answers what the session cookie gives:
    Unauthenticated when the cookie is absent, when its token does not
    verify, and when the token verifies but carries a [userId] that is
    not a valid identifier; else PrincipalNotFound exactly when the user
    the token names is not stored. *)
Theorem failed_bearer_falls_through {platform : Platform} amb req s tok :
  bearer_token (authorization req) = Some tok →
  verifyIdToken tok = None →
  protect amb req s = (s, resolve_session req s)
  ∧ (truthy_str (cookie_token req) = None →
     resolver_failure (protect amb req s).2 = Some Unauthenticated)
  ∧ (∀ t, truthy_str (cookie_token req) = Some t →
          jwt_verify t = None →
          resolver_failure (protect amb req s).2 = Some Unauthenticated)
  ∧ (∀ t dec, truthy_str (cookie_token req) = Some t →
              jwt_verify t = Some dec →
              (malformed_userId dec = true →
               resolver_failure (protect amb req s).2 = Some Unauthenticated)
              ∧ (malformed_userId dec = false →
                 (resolver_failure (protect amb req s).2 = Some PrincipalNotFound
                  ↔ names_no_user dec (users s)))).
Proof.
  intros Hb Hv.
  assert (protect amb req s = (s, resolve_session req s)) as Hp.
  { unfold protect, resolve_external. by rewrite Hb, Hv. }
  rewrite Hp. simpl. split; [done|]. unfold resolve_session.
  split; [|split].
  - by intros ->.
  - by intros t -> ->.
  - intros t dec -> ->. split.
    + unfold malformed_userId.
      destruct (truthy_str (sc_userId dec)) as [uid|] eqn:Hu; [|done].
      intros Hm%negb_true_iff. by rewrite (session_user_malformed dec _ uid Hu Hm).
    + intros Hm. rewrite <- (session_user_missing dec (users s) Hm).
      destruct (session_user dec (users s)) as [[u|]|]; simpl; split; done.
Qed.

(** An expired bearer token next to a session cookie for a user that is
    not stored. *)
Lemma failed_bearer_falls_through_witness :
  let req := {| authorization := Some "Bearer expired"; cookie_token := Some "session-ghost";
                param_id := ""; body := ∅ |} in
  resolver_failure (protect (platform := demo) (production 50 "") req store0).2
  = Some PrincipalNotFound.
Proof.
  intros req.
  assert (bearer_token (authorization req) = Some "expired") as Hb
    by reflexivity.
  assert (verifyIdToken (Platform := demo) "expired" = None) as Hv
    by reflexivity.
  pose proof (failed_bearer_falls_through (platform := demo) (production 50 "") req store0
                "expired" Hb Hv) as (_ & _ & _ & Hmiss).
  assert (truthy_str (cookie_token req) = Some "session-ghost") as Hc by reflexivity.
  assert (jwt_verify (Platform := demo) "session-ghost"
          = Some {| sc_userId := None; sc_uid := Some "uid-ghost" |}) as Hj
    by reflexivity.
  pose proof (Hmiss _ _ Hc Hj) as [_ Hnf].
  apply (Hnf eq_refl).
  simpl. intros k d Hk. apply eq_match_str. revert k d Hk.
  apply findOne_None. reflexivity.
Defined.

Example absent_cookie_after_failed_bearer :
  protect (platform := demo) (production 50 "")
    {| authorization := Some "Bearer expired"; cookie_token := None;
       param_id := ""; body := ∅ |} store0
  = (store0, inl (reply 401 "Not authorized, no token")).
Proof. reflexivity. Qed.

Example malformed_userId_after_failed_bearer :
  protect (platform := demo) (production 50 "")
    {| authorization := Some "Bearer expired"; cookie_token := Some "session-odd";
       param_id := ""; body := ∅ |} store0
  = (store0, inl (reply 401 "Not authorized, token failed")).
Proof. reflexivity. Qed.

Example valid_cookie_after_failed_bearer :
  protect (platform := demo) (production 50 "")
    {| authorization := Some "Bearer expired"; cookie_token := Some "session-b";
       param_id := ""; body := ∅ |} store0
  = (store0, inr user_B).
Proof. reflexivity. Qed.

Example first_external_login_provisions :
  (protect (platform := demo) (production 50 "dddddddddddddddddddddddd")
     {| authorization := Some "Bearer id-token-a"; cookie_token := None;
        param_id := ""; body := ∅ |}
     {| users := ∅; items := ∅; recoveries := ∅ |}).2
  = inr (Oid "dddddddddddddddddddddddd",
         new_user (production 50 "dddddddddddddddddddddddd")
           {| c_email := "a@x.com"; c_uid := "uid-a";
              c_name := Some "A"; c_picture := None |}).
Proof. reflexivity. Qed.

(** ** Updating an item *)

Section PatchInventory.
Context {platform : Platform}.

Lemma patch_inventory_allowed amb u req s i item :
  find_item_patch (patch_ident req) (items s) = Some (i, item) →
  may_update amb u item →
  patch_inventory amb u req s
  = (reply 200 "Item updated successfully",
     with_items s
       (<[i := <["updatedAt" := VDate (Some (now amb))]> (collect_update (body req))
               ∪ item]> (items s))).
Proof.
  intros Hf Hmay. unfold patch_inventory. rewrite Hf.
  assert (negb (bool_decide (node_env amb = Some "development"))
          && negb (strict_eq (get item "contactEmail") (get u.2 "email")) = false) as ->.
  { destruct Hmay as [->| ->]; [apply andb_false_r|done]. }
  do 2 f_equal. apply find_item_patch_Some in Hf.
  apply map_eq; intros j. rewrite lookup_updateOne.
  destruct (decide (i = j)) as [<-|Hne].
  - by rewrite Hf, lookup_insert_eq.
  - by rewrite lookup_insert_ne.
Qed.

Lemma lookup_updateData amb (b item : doc) (k : string) :
  (<["updatedAt" := VDate (Some (now amb))]> (collect_update b) ∪ item) !! k
  = if decide (k = "updatedAt") then Some (VDate (Some (now amb)))
    else if decide (k ∈ allowedFields ∧ defined (get b k) = true)
         then Some (written b k) else item !! k.
Proof.
  rewrite lookup_union_doc. destruct (decide (k = "updatedAt")) as [->|Hne].
  - by rewrite lookup_insert_eq.
  - rewrite lookup_insert_ne by done. rewrite lookup_collect_update.
    by destruct (decide _).
Qed.

End PatchInventory.

(** C6: an update that passes the ownership test writes, into the item it
    addresses, the allowlisted fields the request defines and the update
    timestamp; every other field of that item - named in the request or
    not - keeps its value, and so do all other items, the recoveries and
    the users. *)
Theorem update_writes_only_allowlisted {platform : Platform} amb u req s i item :
  find_item_patch (patch_ident req) (items s) = Some (i, item) →
  may_update amb u item →
  ∃ item',
    items (patch_inventory amb u req s).2 !! i = Some item'
    ∧ (∀ k, k ∉ allowedFields → k ≠ "updatedAt" → item' !! k = item !! k)
    ∧ (∀ k, k ∈ allowedFields → get (body req) k = VUndefined → item' !! k = item !! k)
    ∧ (∀ k, k ∈ allowedFields → get (body req) k ≠ VUndefined →
            item' !! k = Some (written (body req) k))
    ∧ (∀ j, j ≠ i → items (patch_inventory amb u req s).2 !! j = items s !! j)
    ∧ users (patch_inventory amb u req s).2 = users s
    ∧ recoveries (patch_inventory amb u req s).2 = recoveries s.
Proof.
  intros Hf Hmay. rewrite (patch_inventory_allowed _ _ _ _ _ _ Hf Hmay). simpl.
  eexists. split; [apply lookup_insert_eq|].
  split; [|split; [|split; [|split; [|done]]]].
  - intros k Hk Hne. rewrite lookup_updateData, decide_False by done.
    rewrite decide_False; [done|]. by intros [? _].
  - intros k Hk Hu. rewrite lookup_updateData.
    rewrite decide_False by (intros ->; by apply updatedAt_not_allowed).
    rewrite decide_False; [done|]. rewrite Hu. by intros [_ ?].
  - intros k Hk Hd. rewrite lookup_updateData.
    rewrite decide_False by (intros ->; by apply updatedAt_not_allowed).
    rewrite decide_True; [done|]. split; [done|].
    by destruct (get (body req) k).
  - intros j Hne. by rewrite lookup_insert_ne.
Qed.

(** The owner renames the wallet and tries to change its owner and its
    identifier in the same request. *)
Lemma update_writes_only_allowlisted_witness :
  let req := request_of wallet_id [("title", VStr "Purse"); ("contactEmail", VStr "b@x.com");
                                   ("_id", VStr "other")] in
  let out := patch_inventory (platform := demo) (production 40 "") user_A req store1 in
  ∃ item',
    items out.2 !! Oid wallet_id = Some item'
    ∧ item' !! "contactEmail" = Some (VStr "a@x.com")
    ∧ item' !! "_id" = None
    ∧ item' !! "status" = Some (VStr "not-recovered")
    ∧ item' !! "title" = Some (VStr "Purse").
Proof.
  intros req out.
  assert (find_item_patch (platform := demo) (patch_ident (platform := demo) req) (items store1)
          = Some (Oid wallet_id, wallet)) as Hf by reflexivity.
  assert (may_update (production 40 "") user_A wallet) as Hmay
    by (left; reflexivity).
  pose proof (update_writes_only_allowlisted (platform := demo) (production 40 "") user_A req
                store1 (Oid wallet_id) wallet Hf Hmay)
    as (item' & Hi & Hout & Hundef & Hdef & _).
  exists item'. split; [exact Hi|].
  split; [|split; [|split]].
  - rewrite Hout; [reflexivity|unlisted|discriminate].
  - rewrite Hout; [reflexivity|unlisted|discriminate].
  - rewrite Hundef; [reflexivity|listed|reflexivity].
  - rewrite Hdef; [reflexivity|listed|discriminate].
Defined.

(** A date that does not parse reaches the collection with the time
    value 0. *)
Example update_with_a_date_that_does_not_parse :
  let req := request_of wallet_id [("date", VStr "soon")] in
  flip get "date"
    <$> items (patch_inventory (platform := demo) (production 40 "") user_A req store1).2
        !! Oid wallet_id
  = Some (VDate (Some 0%Z)).
Proof. reflexivity. Qed.

(** C10: an update that passes the ownership test is answered as a
    success and stores the item with a new update timestamp, whatever the
    request carries; when the request defines none of the allowlisted
    fields, the stored item is the old one with that timestamp and nothing
    else changed. *)
Theorem update_without_fields_stamps {platform : Platform} amb u req s i item :
  find_item_patch (patch_ident req) (items s) = Some (i, item) →
  may_update amb u item →
  (patch_inventory amb u req s).1 = reply 200 "Item updated successfully"
  ∧ failure_of (patch_inventory amb u req s).1 = None
  ∧ (∃ item', items (patch_inventory amb u req s).2 !! i = Some item'
              ∧ item' !! "updatedAt" = Some (VDate (Some (now amb))))
  ∧ ((∀ k, k ∈ allowedFields → get (body req) k = VUndefined) →
     items (patch_inventory amb u req s).2
     = <[i := <["updatedAt" := VDate (Some (now amb))]> item]> (items s)).
Proof.
  intros Hf Hmay. rewrite (patch_inventory_allowed _ _ _ _ _ _ Hf Hmay). simpl.
  split; [done|]. split; [done|]. split.
  - eexists. split; [apply lookup_insert_eq|].
    by rewrite lookup_updateData, decide_True.
  - intros Hnone. f_equal.
    assert (collect_update (body req) = ∅) as ->.
    { apply map_eq; intros k. rewrite lookup_collect_update, lookup_empty.
      rewrite decide_False; [done|]. intros [Hk Hd]. by rewrite (Hnone k Hk) in Hd. }
    by rewrite <- insert_union_l, (left_id_L ∅ (∪)).
Qed.

(** A request that names only a field outside the list. *)
Lemma update_without_fields_stamps_witness :
  let req := request_of wallet_id [("contactEmail", VStr "b@x.com")] in
  let out := patch_inventory (platform := demo) (production 40 "") user_A req store1 in
  out.1 = reply 200 "Item updated successfully"
  ∧ items out.2
    = <[Oid wallet_id := <["updatedAt" := VDate (Some 40%Z)]> wallet]> (items store1).
Proof.
  intros req out.
  assert (find_item_patch (platform := demo) (patch_ident (platform := demo) req) (items store1)
          = Some (Oid wallet_id, wallet)) as Hf by reflexivity.
  assert (may_update (production 40 "") user_A wallet) as Hmay
    by (left; reflexivity).
  pose proof (update_without_fields_stamps (platform := demo) (production 40 "") user_A
                req store1 (Oid wallet_id) wallet Hf Hmay) as (Hok & _ & _ & Hstamp).
  split; [exact Hok|]. apply Hstamp.
  intros k. unfold allowedFields. rewrite !elem_of_cons, elem_of_nil.
  intros [->|[->|[->|[->|[->|[->|[->|[->|[]]]]]]]]]; reflexivity.
Defined.

(** ** Updating a recovery *)

Section PatchRecoveries.
Context {platform : Platform}.

(** The route never adds or removes a recovery, and leaves every field
    outside its list as it was. *)
Lemma patch_recoveries_frame amb u req s (k : id) (f : string) :
  users (patch_recoveries amb u req s).2 = users s
  ∧ items (patch_recoveries amb u req s).2 = items s
  ∧ (is_Some (recoveries (patch_recoveries amb u req s).2 !! k)
     ↔ is_Some (recoveries s !! k))
  ∧ (f ∉ recoveryAllowedFields →
     recoveries (patch_recoveries amb u req s).2 !! k ≫= (.!! f)
     = recoveries s !! k ≫= (.!! f)).
Proof.
  assert (∀ i upd,
    (is_Some (updateOne i (filteredData upd) (recoveries s) !! k)
     ↔ is_Some (recoveries s !! k))
    ∧ (f ∉ recoveryAllowedFields →
       updateOne i (filteredData upd) (recoveries s) !! k ≫= (.!! f)
       = recoveries s !! k ≫= (.!! f))) as Hupd.
  { intros i upd. rewrite lookup_updateOne.
    destruct (decide (i = k)) as [<-|Hne]; [|done].
    destruct (recoveries s !! i) as [r|]; simpl; [|done].
    split; [by split; eexists|]. intros Hf.
    by rewrite lookup_union_doc, filteredData_lookup, decide_False. }
  unfold patch_recoveries.
  destruct (negb _); [done|]. destruct (_ =? _)%nat; [done|].
  destruct (_ =? _)%nat; simpl; (split; [done|]); (split; [done|]); apply Hupd.
Qed.

Lemma patch_recoveries_no_fields amb u req s :
  filteredData (body req) = ∅ →
  (patch_recoveries amb u req s).2 = s
  ∧ failure_of (patch_recoveries amb u req s).1 = Some ValidationError.
Proof.
  intros He. unfold patch_recoveries. rewrite He, map_size_empty.
  by destruct (negb _).
Qed.

Lemma patch_recoveries_missing amb u req s :
  ObjectId_isValid (param_id req) = true →
  filteredData (body req) ≠ ∅ →
  recoveries s !! Oid (ObjectId_hex (param_id req)) = None →
  (patch_recoveries amb u req s).2 = s
  ∧ failure_of (patch_recoveries amb u req s).1 = Some NotFound.
Proof.
  intros Hv Hne Hnone. unfold patch_recoveries, matchedCount. rewrite Hv, Hnone. simpl.
  destruct (size (filteredData (body req)) =? 0)%nat eqn:Hsz.
  { apply Nat.eqb_eq, map_size_empty_iff in Hsz. done. }
  simpl. by rewrite updateOne_absent, store_eta.
Qed.

Lemma patch_recoveries_malformed amb u req s :
  ObjectId_isValid (param_id req) = false →
  patch_recoveries amb u req s = (reply 400 "Invalid recovery ID", s).
Proof. intros Hv. unfold patch_recoveries. by rewrite Hv. Qed.

End PatchRecoveries.

(** C7, as stated, fails: the request names a recovery that is not stored
    and carries an allowed field, yet its identifier is not a valid
    ObjectId, and the route answers with a validation error, not with
    NotFound. *)
Lemma update_recovery_malformed_id_not_notfound :
  let req := request_of "xyz" [("notes", VStr "found it")] in
  filteredData (body req) ≠ ∅
  ∧ recoveries store2 !! Oid "xyz" = None
  ∧ recoveries store2 !! Sid "xyz" = None
  ∧ patch_recoveries (platform := demo) (production 60 "") user_B req store2
    = (reply 400 "Invalid recovery ID", store2)
  ∧ failure_of (reply 400 "Invalid recovery ID") ≠ Some NotFound.
Proof.
  intros req. split; [|repeat split; (reflexivity || discriminate)].
  intros He.
  assert (filteredData (body req) !! "notes" = Some (VStr "found it")) as Hn
    by reflexivity.
  rewrite He, lookup_empty in Hn. discriminate Hn.
Qed.

(** C7 (amended): updateRecovery writes only the fields recoveryStatus,
    notes, recoveredLocation and recoveredDate, of recoveries only, and
    adds or removes none; if the request carries none of the four it fails
    with a validation error and nothing changes; if the identifier is a
    valid ObjectId, the request carries one of the four and no recovery is
    stored under that ObjectId, it fails with NotFound and nothing
    changes. *)
Theorem update_recovery_contract {platform : Platform} amb u req s :
  (users (patch_recoveries amb u req s).2 = users s
   ∧ items (patch_recoveries amb u req s).2 = items s
   ∧ ∀ k f,
       (is_Some (recoveries (patch_recoveries amb u req s).2 !! k)
        ↔ is_Some (recoveries s !! k))
       ∧ (f ∉ recoveryAllowedFields →
          recoveries (patch_recoveries amb u req s).2 !! k ≫= (.!! f)
          = recoveries s !! k ≫= (.!! f)))
  ∧ (filteredData (body req) = ∅ →
     (patch_recoveries amb u req s).2 = s
     ∧ failure_of (patch_recoveries amb u req s).1 = Some ValidationError)
  ∧ (ObjectId_isValid (param_id req) = true →
     filteredData (body req) ≠ ∅ →
     recoveries s !! Oid (ObjectId_hex (param_id req)) = None →
     (patch_recoveries amb u req s).2 = s
     ∧ failure_of (patch_recoveries amb u req s).1 = Some NotFound).
Proof.
  split; [|split].
  - split; [|split]; try apply (patch_recoveries_frame amb u req s (Oid "") "").
    intros k f. apply (patch_recoveries_frame amb u req s k f).
  - apply patch_recoveries_no_fields.
  - apply patch_recoveries_missing.
Qed.

(** A well-formed identifier under which no recovery is stored. *)
Lemma update_recovery_contract_witness :
  let req := request_of wallet_id [("notes", VStr "found it")] in
  let out := patch_recoveries (platform := demo) (production 60 "") user_B req store2 in
  out.2 = store2 ∧ failure_of out.1 = Some NotFound.
Proof.
  intros req out.
  pose proof (update_recovery_contract (platform := demo) (production 60 "") user_B req store2)
    as (_ & _ & Hmissing).
  apply Hmissing.
  - reflexivity.
  - intros He.
    assert (filteredData (body req) !! "notes" = Some (VStr "found it")) as Hn
      by reflexivity.
    rewrite He, lookup_empty in Hn. discriminate Hn.
  - reflexivity.
Defined.

Example update_recovery_success :
  let req := request_of "222222222222222222222222"
               [("notes", VStr "found it"); ("itemId", VStr "other")] in
  let out := patch_recoveries (platform := demo) (production 60 "") user_B req store2 in
  out.1 = reply 200 "Recovery updated successfully"
  ∧ flip get "notes" <$> recoveries out.2 !! Oid "222222222222222222222222"
    = Some (VStr "found it")
  ∧ flip get "itemId" <$> recoveries out.2 !! Oid "222222222222222222222222"
    = Some (VOid wallet_id).
Proof. repeat split; reflexivity. Qed.

(** C9: a request whose identifier is not a valid ObjectId is answered
    "Invalid recovery ID", a validation error, whatever the store holds,
    and changes nothing; and no request changes a recovery that is stored
    under a string. *)
Theorem malformed_recovery_id_rejected {platform : Platform} amb u req s :
  (ObjectId_isValid (param_id req) = false →
   patch_recoveries amb u req s = (reply 400 "Invalid recovery ID", s)
   ∧ failure_of (patch_recoveries amb u req s).1 = Some ValidationError)
  ∧ (∀ k, recoveries (patch_recoveries amb u req s).2 !! Sid k
          = recoveries s !! Sid k).
Proof.
  split.
  - intros Hv. by rewrite patch_recoveries_malformed.
  - intros k. unfold patch_recoveries.
    destruct (negb _); [done|]. destruct (_ =? _)%nat; [done|].
    destruct (_ =? _)%nat; simpl; by rewrite lookup_updateOne, decide_False.
Qed.

(** The identifier of a legacy recovery, which is stored. *)
Lemma malformed_recovery_id_rejected_witness :
  let req := request_of "legacy-1" [("notes", VStr "found it")] in
  is_Some (recoveries legacy_store !! Sid "legacy-1")
  ∧ patch_recoveries (platform := demo) (production 60 "") user_B req legacy_store
    = (reply 400 "Invalid recovery ID", legacy_store)
  ∧ failure_of (patch_recoveries (platform := demo) (production 60 "") user_B req legacy_store).1
    = Some ValidationError.
Proof.
  intros req. split; [by eexists|].
  apply (malformed_recovery_id_rejected (platform := demo) (production 60 "") user_B req
           legacy_store).
  reflexivity.
Defined.

(** ** Recovering an item again *)

Section Recover.
Context {platform : Platform}.

Lemma recoveries_of_insert (s : store) (us its : collection) (i k : id) (r : doc) :
  recoveries s !! k = None →
  references r i →
  size (recoveries_of {| users := us; items := its;
                         recoveries := <[k := r]> (recoveries s) |} i)
  = S (size (recoveries_of s i)).
Proof.
  intros Hk Href. unfold recoveries_of. simpl.
  rewrite map_filter_insert_True.
  - apply map_size_insert_None, map_lookup_filter_None_2. by left.
  - simpl. unfold references in Href. by rewrite Href, eq_match_refl.
Qed.

End Recover.

(** C8: the recover route does not look at the status of the item.  For an
    item that is recovered already, a claim by a principal with another
    email, with a location and a date that parses, succeeds when its
    transaction commits: it stores one more recovery that refers to the
    item, next to those that did, and the item stays recovered. *)
Theorem recover_again {platform : Platform} amb u req s i item t claimant :
  find_item amb (param_id req) (items s) = Some (i, item) →
  is_recovered item →
  strict_eq (get u.2 "email") (get item "contactEmail") = false →
  truthy (get (body req) "recoveredLocation") = true →
  truthy (get (body req) "recoveredDate") = true →
  new_Date (get (body req) "recoveredDate") = Some t →
  ObjectId_new u.1 = Some claimant →
  commit amb = true →
  recoveries s !! Oid (fresh amb) = None →
  (post_recover amb u req s).1 = reply 200 "Item recovery recorded successfully"
  ∧ recoveries (post_recover amb u req s).2
    = <[Oid (fresh amb) := recovery_data amb i item claimant u (body req) t]>
        (recoveries s)
  ∧ references (recovery_data amb i item claimant u (body req) t) i
  ∧ size (recoveries_of (post_recover amb u req s).2 i) = S (size (recoveries_of s i))
  ∧ (∃ item', items (post_recover amb u req s).2 !! i = Some item' ∧ is_recovered item').
Proof.
  intros Hf Hrec Hne Hloc Hdate Ht Hc Hcommit Hfresh.
  unfold post_recover, recover_txn, insertOne.
  rewrite Hf, Hloc, Hdate, Hne, Ht, Hc, Hcommit, Hfresh. simpl.
  apply find_item_Some in Hf as [Hi _].
  split; [done|]. split; [done|]. split; [apply recovery_data_itemId|].
  split.
  - apply recoveries_of_insert; [done|apply recovery_data_itemId].
  - eexists. rewrite lookup_updateOne, decide_True, Hi by done. split; [done|].
    unfold is_recovered. by rewrite get_union, lookup_insert_eq.
Qed.

(** User C claims the wallet that user B recovered already. *)
Lemma recover_again_witness :
  let req := request_of wallet_id [("recoveredLocation", VStr "Cafe");
                                   ("recoveredDate", VStr "2024-01-05")] in
  let amb := production 70 "333333333333333333333333" in
  let out := post_recover (platform := demo) amb user_C req store2 in
  size (recoveries_of store2 (Oid wallet_id)) = 1
  ∧ out.1 = reply 200 "Item recovery recorded successfully"
  ∧ size (recoveries_of out.2 (Oid wallet_id)) = 2.
Proof.
  intros req amb out.
  assert (size (recoveries_of store2 (Oid wallet_id)) = 1) as Hone
    by reflexivity.
  assert (find_item (platform := demo) amb (param_id req) (items store2)
          = Some (Oid wallet_id, wallet_recovered)) as Hf by reflexivity.
  assert (is_recovered wallet_recovered) as Hrec by reflexivity.
  assert (strict_eq (get user_C.2 "email") (get wallet_recovered "contactEmail") = false)
    as Hne by reflexivity.
  assert (truthy (get (body req) "recoveredLocation") = true) as Hloc
    by reflexivity.
  assert (truthy (get (body req) "recoveredDate") = true) as Hdate
    by reflexivity.
  assert (new_Date (Platform := demo) (get (body req) "recoveredDate")
          = Some 1704412800000%Z) as Ht by reflexivity.
  assert (ObjectId_new (platform := demo) user_C.1 = Some "cccccccccccccccccccccccc") as Hc
    by reflexivity.
  assert (commit amb = true) as Hcommit by reflexivity.
  assert (recoveries store2 !! Oid (fresh amb) = None) as Hfresh
    by reflexivity.
  pose proof (recover_again (platform := demo) amb user_C req store2 (Oid wallet_id)
                wallet_recovered _ _ Hf Hrec Hne Hloc Hdate Ht Hc Hcommit Hfresh)
    as (Hr & _ & _ & Hsz & _).
  split; [exact Hone|]. split; [exact Hr|].
  fold out in Hsz. rewrite Hsz, Hone. reflexivity.
Defined.

(** A recovery whose transaction aborts writes neither the recovery nor
    the status. *)
Example recover_aborted :
  post_recover (platform := demo) (aborting 20 "222222222222222222222222") user_B
    (request_of wallet_id claim_fields) store1
  = (reply 500 "Server error", store1).
Proof. reflexivity. Qed.

(** ** Failures write nothing; owners and users stay *)

(** X1: an operation that answers with a failure leaves the store as it
    was. *)
Theorem failed_operation_writes_nothing {platform : Platform} o amb u req s :
  failure_of (run o amb u req s).1 ≠ None →
  (run o amb u req s).2 = s.
Proof.
  destruct o; simpl.
  - unfold post_inventory. destruct (negb _); [done|].
    by destruct (insertOne _ _ _).
  - unfold patch_inventory.
    destruct (find_item_patch _ _) as [[i item]|]; [|done].
    by destruct (_ && _).
  - unfold post_recover.
    destruct (find_item _ _ _) as [[i item]|]; [|done].
    destruct (_ || _); [done|]. destruct (strict_eq _ _); [done|].
    destruct (new_Date _); [|done]. destruct (ObjectId_new _); [|done].
    by destruct (recover_txn _ _ _ _).
  - unfold delete_inventory.
    destruct (find_item _ _ _) as [[i item]|]; [|done].
    destruct (delete_refused _ _); [done|].
    by destruct (delete_txn _ _ _).
  - unfold patch_recoveries, matchedCount.
    destruct (negb _); [done|]. destruct (_ =? _)%nat; [done|].
    destruct (recoveries s !! _) eqn:Hr; simpl; [done|].
    intros _. by rewrite updateOne_absent, store_eta.
Qed.

(** User B tries to delete the wallet of user A. *)
Lemma failed_operation_writes_nothing_witness :
  (run (platform := demo) DeleteItem (production 30 "") user_B
     (request_of wallet_id []) store2).2 = store2.
Proof.
  apply (failed_operation_writes_nothing (platform := demo)).
  discriminate.
Defined.

Ltac unchanged_items :=
  split; [done | intros ? ? ? ? Hd Hd' _ _; simpl in Hd'; congruence].

(** X2: no operation on items and recoveries writes to the users, and an
    item that is stored before and after an operation keeps every field
    outside the update allowlist, but for the update timestamp: its
    owner, its creation time, any field the routes do not know. *)
Theorem operations_keep_owner_fields {platform : Platform} o amb u req s :
  users (run o amb u req s).2 = users s
  ∧ ∀ i d d' k,
      items s !! i = Some d →
      items (run o amb u req s).2 !! i = Some d' →
      k ∉ allowedFields → k ≠ "updatedAt" →
      d' !! k = d !! k.
Proof.
  destruct o; simpl.
  - unfold post_inventory. destruct (negb _); [by unchanged_items|].
    destruct (insertOne _ _ _) as [its|] eqn:Hins; [|by unchanged_items].
    apply insertOne_Some in Hins as [Hfresh ->]. split; [done|].
    intros i d d' k Hd. simpl. rewrite lookup_insert_ne by congruence. congruence.
  - unfold patch_inventory.
    destruct (find_item_patch _ _) as [[j item]|] eqn:Hf; [|by unchanged_items].
    destruct (_ && _); [by unchanged_items|].
    apply find_item_patch_Some in Hf. split; [done|].
    intros i d d' k Hd. simpl. rewrite lookup_updateOne.
    destruct (decide (j = i)) as [->|Hne]; [|congruence].
    rewrite Hd. simpl. intros [= <-] Hk Hne.
    rewrite lookup_updateData, decide_False by done.
    rewrite decide_False; [done|]. by intros [? _].
  - unfold post_recover.
    destruct (find_item _ _ _) as [[j item]|] eqn:Hf; [|by unchanged_items].
    destruct (_ || _); [by unchanged_items|].
    destruct (strict_eq _ _); [by unchanged_items|].
    destruct (new_Date _); [|by unchanged_items].
    destruct (ObjectId_new _); [|by unchanged_items].
    unfold recover_txn. destruct (commit amb); [|by unchanged_items].
    destruct (insertOne _ _ _); [|by unchanged_items].
    split; [done|]. intros i d d' k Hd. simpl. rewrite lookup_updateOne.
    destruct (decide (j = i)) as [->|Hne]; [|congruence].
    rewrite Hd. simpl. intros [= <-] Hk Hne.
    rewrite lookup_union_doc.
    rewrite lookup_insert_ne by (intros <-; apply Hk; listed).
    by rewrite lookup_insert_ne, lookup_empty.
  - unfold delete_inventory.
    destruct (find_item _ _ _) as [[j item]|] eqn:Hf; [|by unchanged_items].
    destruct (delete_refused _ _); [by unchanged_items|].
    unfold delete_txn. destruct (commit amb); [|by unchanged_items].
    split; [done|]. intros i d d' k Hd. simpl. unfold deleteOne.
    rewrite lookup_delete_Some. intros [_ Hd']. congruence.
  - unfold patch_recoveries.
    destruct (negb _); [by unchanged_items|].
    destruct (_ =? _)%nat; [by unchanged_items|].
    destruct (_ =? _)%nat; simpl; unchanged_items.
Qed.

(** In development user B rewrites the wallet of user A, with a body that
    names its owner too; the owner stays. *)
Lemma operations_keep_owner_fields_witness :
  let req := request_of wallet_id [("title", VStr "Mine"); ("contactEmail", VStr "b@x.com")] in
  let out := run (platform := demo) Update (development 40 "") user_B req store1 in
  let d' := list_to_map [("title", VStr "Mine"); ("updatedAt", VDate (Some 40%Z))] ∪ wallet in
  items out.2 !! Oid wallet_id = Some d'
  ∧ d' !! "title" = Some (VStr "Mine")
  ∧ d' !! "contactEmail" = Some (VStr "a@x.com").
Proof.
  intros req out d'.
  assert (items store1 !! Oid wallet_id = Some wallet) as Hd by reflexivity.
  assert (items out.2 !! Oid wallet_id = Some d') as Hd' by reflexivity.
  split; [exact Hd'|]. split; [reflexivity|].
  rewrite (proj2 (operations_keep_owner_fields (platform := demo) Update
                    (development 40 "") user_B req store1)
             (Oid wallet_id) wallet d' "contactEmail" Hd Hd');
    [reflexivity|unlisted|discriminate].
Defined.

(** ** Creating an item *)

Lemma truthy_string (v : value) :
  truthy v = true ∧ is_string v = true ↔ filled v.
Proof.
  split.
  - destruct v; simpl; intros [Ht Hs]; try discriminate.
    eexists. split; [done|]. intros ->. discriminate.
  - intros (s & -> & Hs). simpl. split; [|done].
    apply negb_true_iff, String.eqb_neq. done.
Qed.

Section Create.
Context {platform : Platform}.

(** X3: [validateItemData] accepts a body exactly when its type is lost
    or found, its thumbnail, title, category and location are strings
    that are not empty, and its date is truthy and parses; the
    description is free. *)
Theorem validateItemData_accepts (b : doc) :
  validateItemData b = true
  ↔ (get b "postType" = VStr "lost" ∨ get b "postType" = VStr "found")
    ∧ filled (get b "thumbnail")
    ∧ filled (get b "title")
    ∧ filled (get b "category")
    ∧ filled (get b "location")
    ∧ truthy (get b "date") = true
    ∧ is_Some (Date_parse (get b "date")).
Proof.
  assert (∀ v, truthy v = true
               ∧ (strict_eq v (VStr "lost") = true ∨ strict_eq v (VStr "found") = true)
               ↔ v = VStr "lost" ∨ v = VStr "found") as Htype.
  { intros v. split.
    - intros [_ [Hl|Hf]]; destruct v; try discriminate; simpl in *;
        apply String.eqb_eq in Hl || apply String.eqb_eq in Hf; subst; auto.
    - intros [-> | ->]; simpl; auto. }
  rewrite <- !truthy_string, <- Htype. unfold validateItemData.
  match goal with |- (if ?X then false else true) = true ↔ _ =>
    transitivity (X = false); [by destruct X|] end.
  rewrite !orb_false_iff, andb_false_iff, !negb_false_iff, bool_decide_eq_true.
  tauto.
Qed.

End Create.

Section CreateLookup.
Context {platform : Platform}.

(** X4: a create with a body that validates, under a generated identifier
    that is not taken, is answered 201; a lookup by that identifier then
    returns the item, owned by the principal whatever the body says, not
    recovered, with the submitted type, thumbnail, title, category and
    location. *)
Theorem create_then_lookup amb amb' u req req' s :
  validateItemData (body req) = true →
  items s !! Oid (fresh amb) = None →
  ObjectId_isValid (param_id req') = true →
  ObjectId_hex (param_id req') = fresh amb →
  items s !! Sid (param_id req') = None →
  (post_inventory amb u req s).1 = reply 201 "Item added successfully"
  ∧ ∃ item,
      get_inventory amb' req' (post_inventory amb u req s).2
      = (reply 200 "", Some (Oid (fresh amb), item))
      ∧ get item "contactEmail" = bson (get u.2 "email")
      ∧ get item "contactName" = bson (get u.2 "name")
      ∧ get item "status" = VStr "not-recovered"
      ∧ ∀ k, k ∈ ["postType"; "thumbnail"; "title"; "category"; "location"] →
             get item k = get (body req) k.
Proof.
  intros Hv Hfresh Hid Hhex Hsid. unfold post_inventory, insertOne.
  rewrite Hv, Hfresh. simpl. split; [done|].
  exists (new_item amb u (body req)). split; [|split; [|split; [|split]]]; try done.
  - unfold get_inventory, find_item, findById. simpl.
    rewrite Hid, Hhex, lookup_insert_eq, lookup_insert_ne, Hsid by done. done.
  - intros k. rewrite !elem_of_cons, elem_of_nil.
    intros [->|[->|[->|[->|[->|[]]]]]]; reflexivity.
Qed.

End CreateLookup.

(** User A posts the wallet with a body that names another owner and a
    status. *)
Lemma create_then_lookup_witness :
  let req := request_of "" (wallet_fields ++ [("contactEmail", VStr "b@x.com");
                                              ("status", VStr "recovered")]) in
  let out := post_inventory (platform := demo) (production 10 wallet_id) user_A req store0 in
  out.1 = reply 201 "Item added successfully"
  ∧ ∃ item,
      get_inventory (platform := demo) (production 11 "") (request_of wallet_id []) out.2
      = (reply 200 "", Some (Oid wallet_id, item))
      ∧ get item "contactEmail" = VStr "a@x.com"
      ∧ get item "status" = VStr "not-recovered".
Proof.
  intros req out.
  assert (validateItemData (platform := demo) (body req) = true) as Hv by reflexivity.
  assert (items store0 !! Oid (fresh (production 10 wallet_id)) = None) as Hf
    by reflexivity.
  assert (ObjectId_isValid (Platform := demo) (param_id (request_of wallet_id [])) = true)
    as Hid by reflexivity.
  assert (ObjectId_hex (Platform := demo) (param_id (request_of wallet_id []))
          = fresh (production 10 wallet_id)) as Hhex by reflexivity.
  assert (items store0 !! Sid (param_id (request_of wallet_id [])) = None) as Hs
    by reflexivity.
  pose proof (create_then_lookup (platform := demo) (production 10 wallet_id)
                (production 11 "") user_A req (request_of wallet_id []) store0
                Hv Hf Hid Hhex Hs) as (Hok & item & Hget & Hemail & _ & Hstatus & _).
  split; [exact Hok|]. exists item. split; [exact Hget|]. split; [|exact Hstatus].
  rewrite Hemail. reflexivity.
Defined.

(** ** Recording a recovery *)

Section RecoverMore.
Context {platform : Platform}.

(** X5: the recover route answers 200 exactly when the item is found, the
    location and the date are present, the emails differ, the date parses,
    the principal's identifier makes an ObjectId, the transaction commits
    and the generated identifier is not taken. *)
Theorem recover_succeeds_iff amb u req s :
  status (post_recover amb u req s).1 = 200
  ↔ ∃ i item t claimant,
      find_item amb (param_id req) (items s) = Some (i, item)
      ∧ truthy (get (body req) "recoveredLocation") = true
      ∧ truthy (get (body req) "recoveredDate") = true
      ∧ strict_eq (get u.2 "email") (get item "contactEmail") = false
      ∧ new_Date (get (body req) "recoveredDate") = Some t
      ∧ ObjectId_new u.1 = Some claimant
      ∧ commit amb = true
      ∧ recoveries s !! Oid (fresh amb) = None.
Proof.
  unfold post_recover, recover_txn, insertOne. split.
  - destruct (find_item _ _ _) as [[i item]|]; [|discriminate].
    destruct (truthy (get (body req) "recoveredLocation")); [|discriminate].
    destruct (truthy (get (body req) "recoveredDate")); [|discriminate]. simpl.
    destruct (strict_eq _ _) eqn:Hne; [discriminate|].
    destruct (new_Date _) as [t|]; [|discriminate].
    destruct (ObjectId_new _) as [c|]; [|discriminate].
    destruct (commit amb); [|discriminate].
    destruct (recoveries s !! _); [discriminate|].
    intros _. exists i, item, t, c. repeat split. exact Hne.
  - intros (i & item & t & c & -> & -> & -> & -> & -> & -> & -> & ->). done.
Qed.

Lemma recovery_data_emails amb i item c (u : user) b t :
  get_in (recovery_data amb i item c u b t) "recoveredBy" "email" = bson (get u.2 "email")
  ∧ get_in (recovery_data amb i item c u b t) "originalOwner" "email"
    = bson (get item "contactEmail").
Proof. split; reflexivity. Qed.

Lemma recover_no_self amb u req s :
  is_string (get u.2 "email") = true →
  no_self_recovery s → no_self_recovery (post_recover amb u req s).2.
Proof.
  intros He Hs. unfold post_recover.
  destruct (find_item _ _ _) as [[i item]|]; [|done].
  destruct (_ || _); [done|].
  destruct (strict_eq _ _) eqn:Hne; [done|].
  destruct (new_Date _) as [t|]; [|done].
  destruct (ObjectId_new _) as [c|]; [|done].
  unfold recover_txn. destruct (commit amb); [|done].
  destruct (insertOne _ _ _) as [recs|] eqn:Hins; [|done].
  apply insertOne_Some in Hins as [_ ->].
  intros k r. simpl. rewrite lookup_insert_Some.
  intros [[_ <-]|[_ Hr]]; [|by apply (Hs k)].
  unfold claimant_differs.
  destruct (recovery_data_emails amb i item c u (body req) t) as [-> ->].
  destruct (get u.2 "email"); try discriminate.
  by destruct (get item "contactEmail").
Qed.

Lemma run_no_self o amb u req s :
  (o = Recover → is_string (get u.2 "email") = true) →
  no_self_recovery s → no_self_recovery (run o amb u req s).2.
Proof.
  intros He Hs. destruct o; simpl.
  - unfold post_inventory. destruct (negb _); [done|].
    by destruct (insertOne _ _ _).
  - unfold patch_inventory.
    destruct (find_item_patch _ _) as [[i item]|]; [|done].
    by destruct (_ && _).
  - by apply recover_no_self; [apply He|].
  - unfold delete_inventory.
    destruct (find_item _ _ _) as [[i item]|]; [|done].
    destruct (delete_refused _ _); [done|].
    unfold delete_txn. destruct (commit amb); [|done].
    intros k r. simpl. rewrite lookup_deleteMany. intros [Hr _]. by apply (Hs k).
  - unfold patch_recoveries.
    destruct (negb _); [done|]. destruct (_ =? _)%nat; [done|].
    assert (no_self_recovery
              {| users := users s; items := items s;
                 recoveries := updateOne (Oid (ObjectId_hex (param_id req)))
                                 (filteredData (body req)) (recoveries s) |}) as Hs'.
    { intros k r. simpl. rewrite lookup_updateOne.
      destruct (decide (_ = k)) as [<-|Hne]; [|by apply (Hs k)].
      destruct (recoveries s !! _) as [r0|] eqn:Hr0; [|done].
      simpl. intros [= <-]. specialize (Hs _ _ Hr0). unfold claimant_differs, get_in in *.
      rewrite !get_union, !filteredData_lookup.
      rewrite !decide_False by unlisted. done. }
    by destruct (_ =? _)%nat.
Qed.

(** X6: in a store where no recovery records the same email for its
    claimant and its owner, none does after any sequence of operations in
    which the principals that record a recovery have a string for email. *)
Theorem operations_never_record_self_recovery (cs : list call) (s : store) :
  no_self_recovery s →
  Forall claims_with_email cs →
  no_self_recovery (run_calls cs s).
Proof.
  intros Hs Hcs. revert s Hs.
  induction Hcs as [|c cs Hc _ IH]; intros s Hs; [done|].
  unfold run_calls. cbn [foldl]. apply IH. by apply run_no_self.
Qed.

End RecoverMore.

(** User A posts the wallet, user B records its recovery and amends the
    notes. *)
Lemma operations_never_record_self_recovery_witness :
  let post := {| call_op := Create; call_amb := production 10 wallet_id;
                 call_user := user_A; call_req := request_of "" wallet_fields |} in
  let claim := {| call_op := Recover;
                  call_amb := production 20 "222222222222222222222222";
                  call_user := user_B; call_req := request_of wallet_id claim_fields |} in
  let amend := {| call_op := UpdateRecovery; call_amb := production 60 "";
                  call_user := user_B;
                  call_req := request_of "222222222222222222222222"
                                [("notes", VStr "found it")] |} in
  no_self_recovery (run_calls (platform := demo) [post; claim; amend] store0).
Proof.
  intros post claim amend.
  apply (operations_never_record_self_recovery (platform := demo)
           [post; claim; amend] store0).
  - intros k r Hr. simpl in Hr. by rewrite lookup_empty in Hr.
  - apply Forall_cons. split; [by intros [=]|].
    apply Forall_cons. split; [intros _; reflexivity|].
    apply Forall_cons. split; [by intros [=]|by apply Forall_nil].
Defined.

(** ** The identifier of a request *)

Lemma split_head (sep : Ascii.ascii) (a : Ascii.ascii) (r : string) :
  default "" (split sep (String a r) !! 0%nat)
  = if Ascii.eqb a sep then "" else String a (default "" (split sep r !! 0%nat)).
Proof.
  simpl. destruct (Ascii.eqb a sep); [done|].
  destruct (split sep r) as [|p ps] eqn:Hs; [|done].
  by destruct r; simpl in Hs; [|destruct (Ascii.eqb _ _), (split sep r)].
Qed.

Lemma split_head_suffix (sep : Ascii.ascii) (x rest : string) :
  default "" (split sep (x +:+ String sep rest) !! 0%nat)
  = default "" (split sep x !! 0%nat).
Proof.
  induction x as [|a r IH].
  - change ("" +:+ String sep rest) with (String sep rest).
    by rewrite split_head, Ascii.eqb_refl.
  - change (String a r +:+ String sep rest) with (String a (r +:+ String sep rest)).
    by rewrite !split_head, IH.
Qed.

Section Identifiers.
Context {platform : Platform}.

(** X7: the update route reads the identifier up to its first colon:
    what follows a colon changes neither the answer nor the store. *)
Theorem update_ignores_colon_suffix amb u req req' rest s :
  param_id req' = param_id req +:+ String ":"%char rest →
  body req' = body req →
  patch_inventory amb u req' s = patch_inventory amb u req s.
Proof.
  intros Hid Hb. unfold patch_inventory, patch_ident.
  by rewrite Hid, Hb, split_head_suffix.
Qed.

(** X8: the lookup of the update route is the dual-identifier lookup of
    the other routes with the ObjectId preferred; the two agree whenever
    the identifier is stored under one form only. *)
Theorem lookups_agree amb ident (c : collection) :
  tie_oid amb = true ∨ single_form ident c →
  find_item amb ident c = find_item_patch ident c.
Proof.
  intros Htie. unfold find_item, find_item_patch, single_form in *.
  destruct (ObjectId_isValid ident); [|done].
  unfold findById.
  destruct (c !! Oid _) as [a|] eqn:Ha, (c !! Sid _) as [b|] eqn:Hb; simpl; try done.
  destruct Htie as [->|Hs]; [done|].
  destruct (Hs eq_refl). split; by eexists.
Qed.

End Identifiers.

(** User A renames the wallet through an identifier with a suffix. *)
Lemma update_ignores_colon_suffix_witness :
  patch_inventory (platform := demo) (production 40 "") user_A
    (request_of (wallet_id +:+ ":1") [("title", VStr "Purse")]) store1
  = patch_inventory (platform := demo) (production 40 "") user_A
      (request_of wallet_id [("title", VStr "Purse")]) store1.
Proof.
  apply (update_ignores_colon_suffix (platform := demo) _ _ _ _ "1"); reflexivity.
Defined.

(** In the store that holds the wallet once. *)
Lemma lookups_agree_witness :
  find_item (platform := demo) (production 40 "") wallet_id (items store1)
  = find_item_patch (platform := demo) wallet_id (items store1).
Proof.
  apply (lookups_agree (platform := demo)). right.
  intros _ [_ [d Hd]]. discriminate Hd.
Defined.

(** When it holds the wallet twice, the routes can address different
    records. *)
Example lookups_differ_on_twin :
  let amb := {| node_env := None; now := 0; fresh := ""; fresh_user := "";
                commit := true; tie_oid := false |} in
  find_item (platform := demo) amb wallet_id (items twin_store)
  = Some (Sid wallet_id, wallet)
  ∧ find_item_patch (platform := demo) wallet_id (items twin_store)
    = Some (Oid wallet_id, wallet).
Proof. split; reflexivity. Qed.

(** ** The identity resolver, when it resolves *)

Lemma findOne_Some (field : string) (q : value) (c : collection) k d :
  findOne field q c = Some (k, d) →
  c !! k = Some d ∧ eq_match q (get d field) = true.
Proof.
  unfold findOne. intros Hf. apply find_some in Hf as [Hin Hm].
  by apply list_elem_of_In, elem_of_map_to_list in Hin.
Qed.

Lemma eq_match_str_true (x : string) (v : value) :
  eq_match (VStr x) v = true ↔ v = VStr x.
Proof.
  destruct v; simpl; try (split; [discriminate|done]).
  rewrite String.eqb_eq. split; congruence.
Qed.

(** The only document of [c] that matches is found. *)
Lemma findOne_unique (field : string) (q : value) (c : collection) k d :
  c !! k = Some d →
  eq_match q (get d field) = true →
  (∀ k' d', c !! k' = Some d' → eq_match q (get d' field) = true → k' = k) →
  findOne field q c = Some (k, d).
Proof.
  intros Hk Hm Huniq. destruct (findOne field q c) as [[k' d']|] eqn:Hf.
  - apply findOne_Some in Hf as [Hk' Hm'].
    assert (k' = k) as -> by by apply (Huniq k' d'). congruence.
  - rewrite findOne_None in Hf. by rewrite (Hf k d Hk) in Hm.
Qed.

Section ResolverMore.
Context {platform : Platform}.

(** X9: [protect] resolves to stored users only, and writes at most the
    one user it resolves to: either the store is as it was, or the user
    is new in it and nothing else changed. *)
Theorem protect_resolves_stored_user amb req s s' u :
  protect amb req s = (s', inr u) →
  users s' !! u.1 = Some u.2
  ∧ (s' = s
     ∨ (users s !! u.1 = None
        ∧ s' = with_users s (<[u.1 := u.2]> (users s)))).
Proof.
  assert (∀ r, resolve_session req s = inr r → users s !! r.1 = Some r.2) as Hsess.
  { intros r. unfold resolve_session, session_user.
    destruct (truthy_str (cookie_token req)); [|done].
    destruct (jwt_verify _) as [dec|]; [|done].
    destruct (truthy_str (sc_userId dec)) as [uid|].
    - destruct (ObjectId_isValid uid); [|done]. unfold findById.
      destruct (users s !! _) eqn:Hu; simpl; [|done]. by intros [= <-].
    - destruct (truthy_str (sc_uid dec)); [|done].
      destruct (findOne _ _ _) as [[k d]|] eqn:Hf; [|done].
      intros [= <-]. by apply findOne_Some in Hf as [? _]. }
  unfold protect, resolve_external.
  destruct (bearer_token _) as [tok|].
  - destruct (verifyIdToken tok) as [dec|].
    + destruct (findOne _ _ _) as [[k d]|] eqn:Hf.
      * intros [= <- <-]. apply findOne_Some in Hf as [? _]. auto.
      * destruct (insertOne _ _ _) as [us|] eqn:Hins.
        -- apply insertOne_Some in Hins as [Hfresh ->].
           intros [= <- <-]. simpl. rewrite lookup_insert_eq. auto.
        -- intros [= <- Hr]. split; [by apply Hsess|by left].
    + intros [= <- Hr]. split; [by apply Hsess|by left].
  - intros [= <- Hr]. split; [by apply Hsess|by left].
Qed.

(** X10: a bearer token that verifies resolves to a user with the email
    of the token, whatever the cookie, as long as the identifier a new
    user would get is not taken; and resolving again, at any later time,
    writes nothing more. *)
Theorem verified_bearer_resolves_by_email amb amb' req s tok dec :
  bearer_token (authorization req) = Some tok →
  verifyIdToken tok = Some dec →
  users s !! Oid (fresh_user amb) = None →
  ∃ u, (protect amb req s).2 = inr u
       ∧ get u.2 "email" = VStr (c_email dec)
       ∧ ∃ u', protect amb' req (protect amb req s).1 = ((protect amb req s).1, inr u')
               ∧ get u'.2 "email" = VStr (c_email dec).
Proof.
  intros Hb Hv Hfresh. unfold protect, resolve_external, insertOne.
  rewrite Hb, Hv.
  destruct (findOne "email" _ (users s)) as [[k d]|] eqn:Hf.
  - exists (k, d). simpl. split; [done|]. rewrite Hf.
    apply findOne_Some in Hf as [_ Hm%eq_match_str_true]. split; [done|].
    by exists (k, d).
  - assert (get (new_user amb dec) "email" = VStr (c_email dec)) as He by reflexivity.
    rewrite Hfresh. simpl. eexists. split; [done|]. split; [done|].
    destruct (findOne "email" _ (<[_ := _]> (users s))) as [[k d]|] eqn:Hf'.
    + exists (k, d). split; [done|].
      by apply findOne_Some in Hf' as [_ Hm%eq_match_str_true].
    + rewrite findOne_None in Hf'.
      specialize (Hf' (Oid (fresh_user amb)) (new_user amb dec)).
      rewrite lookup_insert_eq, He in Hf'. specialize (Hf' eq_refl).
      simpl in Hf'. by rewrite String.eqb_refl in Hf'.
Qed.

(** X11: without a bearer token, [protect] writes nothing, and the user
    it resolves to is the one the session token names: the one stored
    under the ObjectId of its [userId], or else one whose [uid] is that of
    the token. *)
Theorem session_resolves_named_user amb req s s' u :
  bearer_token (authorization req) = None →
  protect amb req s = (s', inr u) →
  s' = s
  ∧ ∃ t dec,
      truthy_str (cookie_token req) = Some t
      ∧ jwt_verify t = Some dec
      ∧ users s !! u.1 = Some u.2
      ∧ match truthy_str (sc_userId dec) with
        | Some uid => u.1 = Oid (ObjectId_hex uid)
        | None => ∃ x, truthy_str (sc_uid dec) = Some x ∧ get u.2 "uid" = VStr x
        end.
Proof.
  intros Hb. unfold protect. rewrite Hb. intros [= <- Hr]. split; [done|].
  unfold resolve_session, session_user in Hr.
  destruct (truthy_str (cookie_token req)) as [t|]; [|done].
  destruct (jwt_verify t) as [dec|] eqn:Hj; [|done].
  exists t, dec. split; [done|]. split; [done|].
  destruct (truthy_str (sc_userId dec)) as [uid|].
  - destruct (ObjectId_isValid uid); [|done]. unfold findById in Hr.
    destruct (users s !! _) as [d|] eqn:Hu; [|done].
    injection Hr as <-. done.
  - destruct (truthy_str (sc_uid dec)) as [x|]; [|done].
    destruct (findOne _ _ _) as [[k d]|] eqn:Hf; [|done].
    injection Hr as <-. apply findOne_Some in Hf as [Hk Hm%eq_match_str_true].
    split; [done|]. by exists x.
Qed.

End ResolverMore.

(** ** Logging in *)

Section Login.
Context {platform : Platform} {driver : Driver}.

Lemma login_update_lookup dec b u (f : string) :
  f ∉ loginFields → login_update dec b u !! f = None.
Proof.
  intros Hf. unfold login_update.
  assert (f ≠ "name" ∧ f ≠ "photoURL") as [Hn Hp].
  { split; intros ->; apply Hf; unfold loginFields; rewrite !elem_of_cons; tauto. }
  destruct (truthy_str (c_picture dec)) as [p|];
    [destruct (negb (truthy (get u "photoURL")))|];
    destruct (truthy (get b "photoURL"));
    destruct (truthy (get b "name") && _);
    by rewrite ?lookup_insert_ne, ?lookup_empty.
Qed.

(** What a successful login does to the users: it inserts a user that has
    the email of the token, when no user has it, or it writes to fields of
    [loginFields] of one user that has it. *)
Lemma login_try_users amb b s uid u s' :
  login_try amb b s = Some (uid, u, s') →
  items s' = items s ∧ recoveries s' = recoveries s
  ∧ ∃ t dec,
      get b "idToken" = VStr t ∧ verifyIdToken t = Some dec ∧ uid = c_uid dec
      ∧ get u.2 "email" = VStr (c_email dec)
      ∧ users s' !! u.1 = Some u.2
      ∧ ((findOne "email" (VStr (c_email dec)) (users s) = None
          ∧ users s !! u.1 = None
          ∧ u.2 = login_new_user amb dec b
          ∧ users s' = <[u.1 := u.2]> (users s))
         ∨ (∃ d, findOne "email" (VStr (c_email dec)) (users s) = Some (u.1, d)
                 ∧ (∀ f, f ∉ loginFields → u.2 !! f = d !! f)
                 ∧ users s' = <[u.1 := u.2]> (users s))).
Proof.
  unfold login_try. destruct (get b "idToken") as [| | | |t| | |] eqn:Hb; try done.
  destruct (verifyIdToken t) as [dec|] eqn:Hv; [|done].
  destruct (findOne _ _ _) as [[i d]|] eqn:Hf.
  - pose proof Hf as [Hi Hm%eq_match_str_true]%findOne_Some.
    destruct (size _ =? 0)%nat eqn:Hsz.
    + intros [= <- <- <-]. do 2 (split; [done|]). exists t, dec.
      do 5 (split; [done|]). right. exists d. split; [done|]. split; [done|].
      simpl. by rewrite insert_id.
    + intros [= <- <- <-]. do 2 (split; [done|]). exists t, dec.
      do 3 (split; [done|]).
      assert (∀ f, f ∉ loginFields →
                (<["updatedAt" := VDate (Some (now amb))]> (login_update dec b d) ∪ d) !! f
                = d !! f) as Hframe.
      { intros f Hfl. rewrite lookup_union_doc, lookup_insert_ne.
        - by rewrite login_update_lookup.
        - intros <-. apply Hfl. unfold loginFields. rewrite !elem_of_cons. tauto. }
      split; [|split].
      * simpl. unfold get. rewrite Hframe; [exact Hm|].
        unfold loginFields. rewrite !elem_of_cons, elem_of_nil. intuition discriminate.
      * simpl. by rewrite lookup_updateOne, decide_True, Hi.
      * right. exists d. split; [done|]. split; [exact Hframe|].
        simpl. apply map_eq; intros j. rewrite lookup_updateOne.
        destruct (decide (i = j)) as [<-|Hne].
        -- by rewrite Hi, lookup_insert_eq.
        -- by rewrite lookup_insert_ne.
  - destruct (insertOne _ _ _) as [us|] eqn:Hins; [|done].
    apply insertOne_Some in Hins as [Hfresh ->].
    intros [= <- <- <-]. do 2 (split; [done|]). exists t, dec.
    do 3 (split; [done|]). split; [reflexivity|]. split.
    + simpl. by rewrite lookup_insert_eq.
    + left. done.
Qed.

Lemma firebase_login_inv amb req s :
  (firebase_login amb req s).2 = s
  ∨ ∃ uid u, login_try amb (body req) s = Some (uid, u, (firebase_login amb req s).2).
Proof.
  unfold firebase_login. destruct (negb _); [by left|].
  destruct (login_try _ _ _) as [[[uid u] s']|] eqn:Ht; [|by left].
  right. by exists uid, u.
Qed.

(** Inserting a user with an email no user has, or writing to fields other
    than the email of a user, keeps emails unique. *)
Lemma unique_emails_insert (s : store) (i : id) (d : doc) e :
  unique_emails s →
  get d "email" = VStr e →
  (∀ k' d', users s !! k' = Some d' → get d' "email" = VStr e → k' = i) →
  unique_emails (with_users s (<[i := d]> (users s))).
Proof.
  intros Hu He Hi k k' x x' e'. simpl. rewrite !lookup_insert_Some.
  intros [[<- <-]|[Hne Hk]] [[<- <-]|[Hne' Hk']] Hx Hx'; try done.
  - symmetry. apply (Hi k' x' Hk'). congruence.
  - apply (Hi k x Hk). congruence.
  - by apply (Hu k k' x x' e').
Qed.

Lemma firebase_login_unique amb req s :
  unique_emails s → unique_emails (firebase_login amb req s).2.
Proof.
  intros Hu.
  destruct (firebase_login_inv amb req s) as [->|(uid & u & Ht)]; [done|].
  destruct (login_try_users _ _ _ _ _ _ Ht)
    as (Hi & Hr & t & dec & _ & _ & _ & He & _ & Hcase).
  assert ((firebase_login amb req s).2
          = with_users s (<[u.1 := u.2]> (users s))) as ->.
  { destruct (firebase_login amb req s).2 as [us its recs]. simpl in *.
    unfold with_users. destruct Hcase as [(_ & _ & _ & ->)|(d & _ & _ & ->)];
      by rewrite Hi, Hr. }
  apply (unique_emails_insert s u.1 u.2 _ Hu He).
  destruct Hcase as [(Hnone & _)|(d & Hf & _)]; intros k' d' Hk' He'.
  - rewrite findOne_None in Hnone. specialize (Hnone k' d' Hk').
    rewrite He' in Hnone. simpl in Hnone. by rewrite String.eqb_refl in Hnone.
  - apply findOne_Some in Hf as [Hd Hm%eq_match_str_true].
    by apply (Hu k' u.1 d' d (c_email dec)).
Qed.

Lemma protect_unique amb req s :
  unique_emails s → unique_emails (protect amb req s).1.
Proof.
  intros Hu. unfold protect, resolve_external.
  destruct (bearer_token _) as [tok|]; [|done].
  destruct (verifyIdToken tok) as [dec|]; [|done].
  destruct (findOne _ _ _) as [[k d]|] eqn:Hf; [done|].
  destruct (insertOne _ _ _) as [us|] eqn:Hins; [|done].
  apply insertOne_Some in Hins as [Hfresh ->]. simpl.
  apply (unique_emails_insert s _ _ (c_email dec) Hu); [reflexivity|].
  intros k' d' Hk' He'. rewrite findOne_None in Hf. specialize (Hf k' d' Hk').
  rewrite He' in Hf. simpl in Hf. by rewrite String.eqb_refl in Hf.
Qed.

(** X12: login and the provisioning of [protect] keep emails unique: no
    second user is ever created for an email a user has. *)
Theorem emails_stay_unique amb req s :
  unique_emails s →
  unique_emails (firebase_login amb req s).2
  ∧ unique_emails (protect amb req s).1.
Proof.
  intros Hu. split; [by apply firebase_login_unique|by apply protect_unique].
Qed.

(** X13: login writes to the users only, removes none, and of a user that
    was stored it changes at most the name, the photo and the update
    timestamp. *)
Theorem login_writes_profile_fields amb req s :
  items (firebase_login amb req s).2 = items s
  ∧ recoveries (firebase_login amb req s).2 = recoveries s
  ∧ ∀ k d, users s !! k = Some d →
      ∃ d', users (firebase_login amb req s).2 !! k = Some d'
            ∧ ∀ f, f ∉ loginFields → d' !! f = d !! f.
Proof.
  destruct (firebase_login_inv amb req s) as [->|(uid & u & Ht)].
  { do 2 (split; [done|]). intros k d Hk. by exists d. }
  destruct (login_try_users _ _ _ _ _ _ Ht)
    as (Hi & Hr & t & dec & _ & _ & _ & _ & _ & Hcase).
  do 2 (split; [done|]). intros k d Hk.
  destruct Hcase as [(_ & Hnew & _ & ->)|(d0 & Hf & Hframe & ->)].
  - exists d. rewrite lookup_insert_ne; [done|]. intros <-. by rewrite Hnew in Hk.
  - apply findOne_Some in Hf as [Hd0 _].
    destruct (decide (u.1 = k)) as [<-|Hne].
    + exists u.2. rewrite lookup_insert_eq. split; [done|].
      assert (d0 = d) as -> by congruence. exact Hframe.
    + exists d. by rewrite lookup_insert_ne.
Qed.

(** X14: the photo of a user after a login that found them: the picture
    of the token when the token has one and the user had no photo - also
    when the request sends one -, else the photo of the request when it
    sends one, else the photo as it was. *)
Theorem login_photo amb req s t dec i d :
  get (body req) "idToken" = VStr t →
  t ≠ "" →
  verifyIdToken t = Some dec →
  findOne "email" (VStr (c_email dec)) (users s) = Some (i, d) →
  ∃ d', users (firebase_login amb req s).2 !! i = Some d'
        ∧ get d' "photoURL"
          = match truthy_str (c_picture dec) with
            | Some picture =>
                if truthy (get d "photoURL")
                then (if truthy (get (body req) "photoURL")
                      then get (body req) "photoURL" else get d "photoURL")
                else VStr picture
            | None => if truthy (get (body req) "photoURL")
                      then get (body req) "photoURL" else get d "photoURL"
            end.
Proof.
  intros Hb Ht Hv Hf. pose proof Hf as [Hi _]%findOne_Some.
  unfold firebase_login, login_try. rewrite Hb, Hv, Hf. simpl.
  apply String.eqb_neq in Ht. rewrite Ht. simpl.
  assert (get (login_update dec (body req) d ∪ d) "photoURL"
          = match truthy_str (c_picture dec) with
            | Some picture =>
                if truthy (get d "photoURL")
                then (if truthy (get (body req) "photoURL")
                      then get (body req) "photoURL" else get d "photoURL")
                else VStr picture
            | None => if truthy (get (body req) "photoURL")
                      then get (body req) "photoURL" else get d "photoURL"
            end) as Hphoto.
  { rewrite get_union. unfold login_update.
    destruct (truthy_str (c_picture dec)) as [p|];
      [destruct (truthy (get d "photoURL")); simpl|];
      destruct (truthy (get (body req) "photoURL"));
      destruct (truthy (get (body req) "name") && _);
      by rewrite ?lookup_insert_eq, ?lookup_insert_ne, ?lookup_empty. }
  destruct (size _ =? 0)%nat eqn:Hsz; simpl.
  - exists d. split; [done|]. rewrite <- Hphoto.
    apply Nat.eqb_eq, map_size_empty_iff in Hsz. rewrite Hsz.
    by rewrite (left_id_L ∅ (∪)).
  - eexists. rewrite lookup_updateOne, decide_True, Hi by done. split; [done|].
    rewrite <- Hphoto. rewrite !get_union, lookup_insert_ne by done. done.
Qed.

End Login.

Section LoginAgain.
Context {platform : Platform} {driver : Driver}.








(** What a session cookie with a [uid] resolves to. *)
Lemma uid_cookie_resolves amb req s tok uid :
  bearer_token (authorization req) = None →
  cookie_token req = Some tok → tok ≠ "" →
  jwt_verify tok = Some (createToken uid true) → uid ≠ "" →
  protect amb req s
  = (s, match findOne "uid" (VStr uid) (users s) with
        | Some u => inr u
        | None => inl (reply 404 "User not found")
        end).
Proof.
  intros Hbear Hcookie Htok Hjwt Huid.
  unfold protect. rewrite Hbear. f_equal.
  unfold resolve_session, session_user. rewrite Hcookie. simpl.
  apply String.eqb_neq in Htok. rewrite Htok, Hjwt. simpl.
  apply String.eqb_neq in Huid. rewrite Huid.
  by destruct (findOne _ _ _).
Qed.

(** X16: the first login of an email, then a request with its cookie:
    when no user has the email or the [uid] of the token, the login
    creates the user and a later request that carries the cookie and no
    bearer token resolves to that user, provided the token signed
    verifies to its payload. *)
Theorem first_login_then_session amb amb' req req' s t dec :
  get (body req) "idToken" = VStr t → t ≠ "" →
  verifyIdToken t = Some dec → c_uid dec ≠ "" →
  findOne "email" (VStr (c_email dec)) (users s) = None →
  (∀ k d, users s !! k = Some d → get d "uid" ≠ VStr (c_uid dec)) →
  users s !! Oid (fresh_user amb) = None →
  jwt_sign (now amb) (createToken (c_uid dec) true) ≠ "" →
  jwt_verify (jwt_sign (now amb) (createToken (c_uid dec) true))
  = Some (createToken (c_uid dec) true) →
  bearer_token (authorization req') = None →
  cookie_token req' = login_cookie (firebase_login amb req s).1 →
  login_user (firebase_login amb req s).1
  = Some (Oid (fresh_user amb), login_new_user amb dec (body req))
  ∧ protect amb' req' (firebase_login amb req s).2
    = ((firebase_login amb req s).2,
       inr (Oid (fresh_user amb), login_new_user amb dec (body req))).
Proof.
  intros Hb Ht Hv Huid Hnone Hnouid Hfresh Htok Hjwt Hbear Hcookie.
  revert Hcookie. unfold firebase_login, login_try, insertOne.
  rewrite Hb, Hv, Hnone, Hfresh. simpl.
  apply String.eqb_neq in Ht. rewrite Ht. simpl. intros Hcookie.
  split; [done|].
  rewrite (uid_cookie_resolves amb' req' _ _ (c_uid dec) Hbear Hcookie Htok Hjwt Huid).
  f_equal. simpl.
  rewrite (findOne_unique "uid" (VStr (c_uid dec)) _ (Oid (fresh_user amb))
             (login_new_user amb dec (body req))); [done| | |].
  - by rewrite lookup_insert_eq.
  - assert (get (login_new_user amb dec (body req)) "uid" = VStr (c_uid dec)) as ->
      by reflexivity.
    simpl. apply String.eqb_refl.
  - intros k' d'. rewrite lookup_insert_Some.
    intros [[<- _]|[_ Hk']] Hm%eq_match_str_true; [done|].
    by destruct (Hnouid k' d' Hk').
Qed.

(** X17: login finds a user by email and never writes the [uid].  When
    the user found and all others carry another [uid] than the token, the
    login succeeds, yet a later request with its cookie and no bearer
    token is answered "User not found". *)
Theorem stale_uid_login_then_session amb amb' req req' s t dec i d :
  get (body req) "idToken" = VStr t → t ≠ "" →
  verifyIdToken t = Some dec → c_uid dec ≠ "" →
  findOne "email" (VStr (c_email dec)) (users s) = Some (i, d) →
  (∀ k d, users s !! k = Some d → get d "uid" ≠ VStr (c_uid dec)) →
  jwt_sign (now amb) (createToken (c_uid dec) true) ≠ "" →
  jwt_verify (jwt_sign (now amb) (createToken (c_uid dec) true))
  = Some (createToken (c_uid dec) true) →
  bearer_token (authorization req') = None →
  cookie_token req' = login_cookie (firebase_login amb req s).1 →
  status (login_response (firebase_login amb req s).1) = 200
  ∧ protect amb' req' (firebase_login amb req s).2
    = ((firebase_login amb req s).2, inl (reply 404 "User not found")).
Proof.
  intros Hb Ht Hv Huid Hf Hnouid Htok Hjwt Hbear.
  assert (∃ u s', login_try amb (body req) s = Some (c_uid dec, u, s')) as (u & s' & Htry).
  { unfold login_try. rewrite Hb, Hv, Hf. destruct (_ =? _)%nat; eauto. }
  assert (firebase_login amb req s
          = ({| login_response := reply 200 "Logged in with Firebase";
                login_cookie := Some (jwt_sign (now amb) (createToken (c_uid dec) true));
                login_user := Some u |}, s')) as ->.
  { unfold firebase_login. rewrite Hb, Htry. simpl.
    apply String.eqb_neq in Ht. by rewrite Ht. }
  simpl. intros Hcookie. split; [done|].
  rewrite (uid_cookie_resolves amb' req' _ _ (c_uid dec) Hbear Hcookie Htok Hjwt Huid).
  f_equal.
  destruct (findOne "uid" _ (users s')) as [[k x]|] eqn:Hfind; [|done].
  apply findOne_Some in Hfind as [Hk Hm%eq_match_str_true].
  destruct (login_try_users _ _ _ _ _ _ Htry)
    as (_ & _ & t' & dec' & Hb' & Hv' & _ & _ & _ & Hcase).
  assert (dec' = dec) as -> by congruence.
  destruct Hcase as [(Hnone & _)|(d0 & Hf0 & Hframe & Hus)]; [congruence|].
  rewrite Hus in Hk. apply lookup_insert_Some in Hk as [[<- <-]|[_ Hk]].
  - apply findOne_Some in Hf0 as [Hd0 _]. destruct (Hnouid _ _ Hd0).
    unfold get in *. rewrite <- Hframe; [done|].
    unfold loginFields. rewrite !elem_of_cons, elem_of_nil. intuition discriminate.
  - by destruct (Hnouid k x Hk).
Qed.

End LoginAgain.

(** ** Listings *)

Lemma NoDup_fst_filter {A B} (P : A * B → Prop) `{∀ x, Decision (P x)} (l : list (A * B)) :
  NoDup l.*1 → NoDup (filter P l).*1.
Proof.
  induction l as [|x l IH]; [done|].
  rewrite fmap_cons, NoDup_cons. intros [Hx Hl].
  rewrite filter_cons. destruct (decide (P x)); [|by apply IH].
  rewrite fmap_cons, NoDup_cons. split; [|by apply IH].
  intros (y & Hy & Hin)%list_elem_of_fmap.
  apply list_elem_of_filter in Hin as [_ Hin].
  apply Hx, list_elem_of_fmap. by exists y.
Qed.

Section Listings.
Context {platform : Platform} {driver : Driver}.

Lemma elem_of_find (test : doc → bool) (c : collection) k d :
  (k, d) ∈ find test c ↔ c !! k = Some d ∧ test d = true.
Proof.
  unfold find. rewrite list_elem_of_filter, elem_of_map_to_list. simpl. tauto.
Qed.

Lemma elem_of_newest_first (l : list (id * doc)) x :
  x ∈ newest_first l ↔ x ∈ l.
Proof. unfold newest_first. by rewrite merge_sort_Permutation. Qed.

Lemma NoDup_listing (test : doc → bool) (c : collection) :
  NoDup (newest_first (find test c)).*1.
Proof.
  unfold newest_first. rewrite merge_sort_Permutation. unfold find.
  apply NoDup_fst_filter, NoDup_fst_map_to_list.
Qed.

(** X18: [GET /my-items] with an email lists, once each, exactly the
    items whose [contactEmail] is that email, and counts them; the
    principal plays no part. *)
Theorem my_items_lists_by_email u email s e :
  truthy_str email = Some e →
  ∃ m, get_my_items u email s = (reply 200 "", Some m)
       ∧ emailUsed m = e
       ∧ itemsFound m = length (found m)
       ∧ NoDup (found m).*1
       ∧ ∀ k d, (k, d) ∈ found m
                ↔ items s !! k = Some d ∧ get d "contactEmail" = VStr e.
Proof.
  intros He. unfold get_my_items. rewrite He. eexists. split; [done|].
  cbn [emailUsed itemsFound found].
  split; [done|]. split; [done|]. split; [apply NoDup_listing|].
  intros k d. rewrite elem_of_newest_first, elem_of_find.
  by rewrite eq_match_str_true.
Qed.

Lemma regex_field_true (test : string → bool) (v : value) :
  regex_field test v = true ↔ ∃ x, v = VStr x ∧ test x = true.
Proof.
  destruct v; simpl; try (split; [discriminate|by intros (? & ? & ?)]).
  split; [by eexists|]. by intros (x & [= <-] & ?).
Qed.

Lemma truthy_str_known (o : option string) (a b : string) :
  match truthy_str o with
  | Some t => (String.eqb t a || String.eqb t b = true ↔ t = a ∨ t = b)
  | None => True
  end.
Proof.
  destruct (truthy_str o) as [t|]; [|done].
  rewrite orb_true_iff, !String.eqb_eq. done.
Qed.

(** The test the listing builds says what [passes] says. *)
Lemma list_test_passes (q : list_query) (test : doc → bool) (d : doc) :
  list_test q = Some test → test d = true ↔ passes q d.
Proof.
  unfold list_test, passes.
  pose proof (truthy_str_known (q_type q) "lost" "found") as Htype.
  pose proof (truthy_str_known (q_status q) "active" "recovered") as Hstatus.
  destruct (truthy_str (q_location q)) as [pl|];
    [destruct (regex_i pl) as [tl|] eqn:Hrl; [|done]|];
    (destruct (truthy_str (q_search q)) as [ps|];
     [destruct (regex_i ps) as [ts|] eqn:Hrs; [|done]|]);
    simpl; intros [= <-]; rewrite !andb_true_iff.
  all: assert (∀ (o : option string) (f : string → doc → bool) (P : string → Prop),
                 (∀ t, f t d = true ↔ P t) →
                 (match o with Some t => f t | None => fun _ => true end) d = true
                 ↔ ∀ t, o = Some t → P t) as Hopt
    by (intros [t|] f P Hf; [rewrite Hf; split; [by intros ? ? [= <-]|eauto]
                            |split; [by intros|done]]).
  all: assert ((match truthy_str (q_type q) with
                | Some t => if String.eqb t "lost" || String.eqb t "found"
                            then fun d => eq_match (VStr t) (get d "postType")
                            else fun _ => true
                | None => fun _ => true
                end) d = true
               ↔ ∀ t, truthy_str (q_type q) = Some t → t = "lost" ∨ t = "found" →
                      get d "postType" = VStr t) as ->
    by (destruct (truthy_str (q_type q)) as [t|]; [|by split];
        destruct (String.eqb t "lost" || String.eqb t "found") eqn:Hk;
        [rewrite eq_match_str_true; split; [by intros ? ? [= <-]|intros Hx; apply Hx; tauto]
        |split; [intros _ ? [= <-] Hx; apply Htype in Hx; congruence|done]]).
  all: assert ((match truthy_str (q_status q) with
                | Some t => if String.eqb t "active" || String.eqb t "recovered"
                            then fun d => eq_match (VStr t) (get d "status")
                            else fun _ => true
                | None => fun _ => true
                end) d = true
               ↔ ∀ t, truthy_str (q_status q) = Some t → t = "active" ∨ t = "recovered" →
                      get d "status" = VStr t) as ->
    by (destruct (truthy_str (q_status q)) as [t|]; [|by split];
        destruct (String.eqb t "active" || String.eqb t "recovered") eqn:Hk;
        [rewrite eq_match_str_true; split; [by intros ? ? [= <-]|intros Hx; apply Hx; tauto]
        |split; [intros _ ? [= <-] Hx; apply Hstatus in Hx; congruence|done]]).
  all: rewrite (Hopt (truthy_str (q_category q))
                  (fun c d => eq_match (VStr c) (get d "category"))
                  (fun c => get d "category" = VStr c))
    by (intros; apply eq_match_str_true).
  all: rewrite ?orb_true_iff, ?regex_field_true.
  - split.
    + intros ((((Ht & Hs) & Hc) & (x & Hx & Htx)) & Hsearch).
      do 3 (split; [done|]). split.
      * intros p [= <-]. exists tl, x. tauto.
      * intros p [= <-]. destruct Hsearch as [(y & Hy & Hty)|(y & Hy & Hty)];
          exists ts, y; tauto.
    + intros (Ht & Hs & Hc & Hl & Hsr).
      destruct (Hl pl eq_refl) as (tl' & x & Hr & Hx & Htx).
      destruct (Hsr ps eq_refl) as (ts' & y & Hr' & Hty & Hy).
      assert (tl' = tl) as -> by congruence. assert (ts' = ts) as -> by congruence.
      split; [split; [tauto|by exists x]|].
      destruct Hy; [left|right]; by exists y.
  - split.
    + intros ((((Ht & Hs) & Hc) & (x & Hx & Htx)) & _).
      do 3 (split; [done|]). split; [|done].
      intros p [= <-]. exists tl, x. tauto.
    + intros (Ht & Hs & Hc & Hl & _).
      destruct (Hl pl eq_refl) as (tl' & x & Hr & Hx & Htx).
      assert (tl' = tl) as -> by congruence.
      split; [split; [tauto|by exists x]|done].
  - split.
    + intros ((((Ht & Hs) & Hc) & _) & Hsearch).
      do 3 (split; [done|]). split; [done|].
      intros p [= <-]. destruct Hsearch as [(y & Hy & Hty)|(y & Hy & Hty)];
        exists ts, y; tauto.
    + intros (Ht & Hs & Hc & _ & Hsr).
      destruct (Hsr ps eq_refl) as (ts' & y & Hr' & Hty & Hy).
      assert (ts' = ts) as -> by congruence.
      split; [tauto|]. destruct Hy; [left|right]; by exists y.
  - split.
    + intros ((((Ht & Hs) & Hc) & _) & _). do 3 (split; [done|]). by split.
    + intros (Ht & Hs & Hc & _ & _). by repeat split.
Qed.

Lemma list_test_is_Some (q : list_query) :
  is_Some (list_test q)
  ↔ (∀ p, truthy_str (q_location q) = Some p → is_Some (regex_i p))
    ∧ (∀ p, truthy_str (q_search q) = Some p → is_Some (regex_i p)).
Proof.
  unfold list_test.
  destruct (truthy_str (q_location q)) as [pl|];
    [destruct (regex_i pl) as [tl|] eqn:Hrl|];
    (destruct (truthy_str (q_search q)) as [ps|];
     [destruct (regex_i ps) as [ts|] eqn:Hrs|]); simpl.
  all: split;
    [intros [x Hx]; try discriminate Hx;
     split; intros p Hp; try discriminate Hp; injection Hp as <-;
     rewrite ?Hrl, ?Hrs; by eexists
    |intros [Hl Hs];
     first [by eexists
           |destruct (Hl _ eq_refl); congruence
           |destruct (Hs _ eq_refl); congruence]].
Qed.

(** X19: [GET /inventory] is answered 200 unless a pattern it is given is
    refused, and then lists, once each, exactly the stored items that pass
    every filter of the query. *)
Theorem listing_lists_what_passes (q : list_query) (s : store) :
  (status (list_inventory q s).1 = 200
   ↔ (∀ p, truthy_str (q_location q) = Some p → is_Some (regex_i p))
     ∧ (∀ p, truthy_str (q_search q) = Some p → is_Some (regex_i p)))
  ∧ (status (list_inventory q s).1 = 200 →
     NoDup (list_inventory q s).2.*1
     ∧ ∀ k d, (k, d) ∈ (list_inventory q s).2 ↔ items s !! k = Some d ∧ passes q d).
Proof.
  rewrite <- list_test_is_Some. unfold list_inventory.
  destruct (list_test q) as [test|] eqn:Ht; simpl.
  - split; [split; [by eexists|done]|]. intros _.
    split; [apply NoDup_listing|]. intros k d.
    by rewrite elem_of_newest_first, elem_of_find, (list_test_passes q test d Ht).
  - split; [|discriminate]. split; [discriminate|]. by intros [? ?].
Qed.

(** X20: the status filter knows "active" and "recovered", the items the
    routes write are "not-recovered" or "recovered".  So a query for the
    status "active" never lists an item that is not recovered, and a query
    for the status "not-recovered" lists what the query without a status
    lists. *)
Theorem status_filter_misses_not_recovered (q : list_query) (s : store) :
  (q_status q = Some "active" →
   ∀ k d, (k, d) ∈ (list_inventory q s).2 → get d "status" ≠ VStr "not-recovered")
  ∧ (q_status q = Some "not-recovered" →
     list_inventory q s
     = list_inventory {| q_type := q_type q; q_status := None;
                         q_category := q_category q; q_location := q_location q;
                         q_search := q_search q |} s).
Proof.
  split.
  - intros Hq k d. unfold list_inventory.
    destruct (list_test q) as [test|] eqn:Ht; simpl; [|by rewrite elem_of_nil].
    rewrite elem_of_newest_first, elem_of_find, (list_test_passes q test d Ht).
    intros [_ (_ & Hs & _)]. rewrite Hq in Hs.
    rewrite (Hs "active" eq_refl); [discriminate|by left].
  - intros Hq. unfold list_inventory, list_test. rewrite Hq. done.
Qed.

Lemma elem_of_list_recoveries u s h k r' :
  ObjectId_new u.1 = Some h →
  (k, r') ∈ (list_recoveries u s).2
  ↔ ∃ r, recoveries s !! k = Some r
         ∧ r' = <["item" := attached_item r (items s)]> r
         ∧ concerns u r.
Proof.
  intros Hh. unfold list_recoveries, concerns. rewrite Hh. simpl.
  rewrite list_elem_of_fmap. split.
  - intros ([k0 r] & [= -> ->] & Hin).
    apply elem_of_newest_first, elem_of_find in Hin as [Hr Hm]. simpl.
    exists r. split; [done|]. split; [done|].
    apply orb_true_iff in Hm as [Hm|Hm]; [left|by right].
    exists h. split; [done|]. by apply (eq_match_id (Oid h)) in Hm.
  - intros (r & Hr & -> & Hc). exists (k, r). split; [done|].
    apply elem_of_newest_first, elem_of_find. split; [done|].
    apply orb_true_iff. destruct Hc as [(h' & Hh' & Hc)|Hc]; [left|by right].
    assert (h' = h) as -> by congruence. rewrite Hc. apply (eq_match_refl (Oid h)).
Qed.

(** X21: [GET /recoveries] fails when the principal's identifier makes no
    ObjectId; else it lists exactly the recoveries the principal recorded
    and those of items whose owner has the principal's email, each with
    the item attached. *)
Theorem recoveries_listed_for_parties u s :
  (ObjectId_new u.1 = None →
   list_recoveries u s = (reply 500 "Server error", []))
  ∧ (is_Some (ObjectId_new u.1) →
     (list_recoveries u s).1 = reply 200 ""
     ∧ ∀ k r', (k, r') ∈ (list_recoveries u s).2
               ↔ ∃ r, recoveries s !! k = Some r
                      ∧ r' = <["item" := attached_item r (items s)]> r
                      ∧ concerns u r).
Proof.
  split.
  - intros Hn. unfold list_recoveries. by rewrite Hn.
  - intros [h Hh]. split.
    + unfold list_recoveries. by rewrite Hh.
    + intros k r'. by apply (elem_of_list_recoveries u s h).
Qed.

(** X22: a recovery that was just recorded is listed for the claimant,
    and for every user whose email is the [contactEmail] of the item; for
    an item stored under an ObjectId the listing attaches the item as it
    is now, recovered. *)
Theorem recorded_recovery_is_listed amb u o req s h item e :
  find_item amb (param_id req) (items s) = Some (Oid h, item) →
  status (post_recover amb u req s).1 = 200 →
  get item "contactEmail" = VStr e →
  get o.2 "email" = VStr e →
  is_Some (ObjectId_new o.1) →
  ∃ r item',
    items (post_recover amb u req s).2 !! Oid h = Some item'
    ∧ is_recovered item'
    ∧ get r "item" = VObj (<["_id" := VOid h]> item')
    ∧ (Oid (fresh amb), r) ∈ (list_recoveries u (post_recover amb u req s).2).2
    ∧ (Oid (fresh amb), r) ∈ (list_recoveries o (post_recover amb u req s).2).2.
Proof.
  intros Hf Hok He Ho [ho Hho].
  pose proof Hf as [Hi _]%find_item_Some.
  revert Hok. unfold post_recover, recover_txn. rewrite Hf.
  destruct (_ || _); [discriminate|]. destruct (strict_eq _ _); [discriminate|].
  destruct (new_Date _) as [t|]; [|discriminate].
  destruct (ObjectId_new u.1) as [c|] eqn:Hc; [|discriminate].
  destruct (commit amb); [|discriminate].
  destruct (insertOne _ _ _) as [recs|] eqn:Hins; [|discriminate].
  apply insertOne_Some in Hins as [Hfresh ->]. intros _. simpl.
  set (rd := recovery_data amb (Oid h) item c u (body req) t).
  set (upd := (list_to_map [("status", VStr "recovered");
                            ("updatedAt", VDate (Some (now amb)))] : doc)).
  set (s' := {| users := users s; items := updateOne (Oid h) upd (items s);
                recoveries := <[Oid (fresh amb) := rd]> (recoveries s) |}).
  assert (items s' !! Oid h = Some (upd ∪ item)) as Hitem.
  { simpl. by rewrite lookup_updateOne, decide_True, Hi. }
  assert (attached_item rd (items s') = VObj (<["_id" := VOid h]> (upd ∪ item))) as Hatt.
  { unfold attached_item.
    assert (get rd "itemId" = VOid h) as -> by reflexivity.
    cbn [ObjectId_of_value]. by rewrite Hitem. }
  exists (<["item" := attached_item rd (items s')]> rd), (upd ∪ item).
  split; [done|]. split; [|split; [|split]].
  - unfold is_recovered. by rewrite get_union.
  - unfold get. by rewrite lookup_insert_eq, Hatt.
  - apply (elem_of_list_recoveries u s' c); [done|]. exists rd.
    split; [simpl; by rewrite lookup_insert_eq|]. split; [done|].
    left. exists c. split; [done|]. reflexivity.
  - apply (elem_of_list_recoveries o s' ho); [done|]. exists rd.
    split; [simpl; by rewrite lookup_insert_eq|]. split; [done|].
    right. rewrite Ho.
    assert (get_in rd "originalOwner" "email" = bson (get item "contactEmail")) as ->
      by reflexivity.
    rewrite He. simpl. apply String.eqb_refl.
Qed.

End Listings.

(** ** Order of the listings *)

Section Order.
Context {platform : Platform} {driver : Driver}.

(** X23: when the order of the driver is total and transitive, the
    listings come newest first: every entry sorts after or with all the
    entries that follow it, by [createdAt]. *)
Theorem listings_newest_first (q : list_query) (u : user) (email : option string)
    (s : store) :
  (∀ a b, sorts_before a b = true ∨ sorts_before b a = true) →
  (∀ a b c, sorts_before a b = true → sorts_before b c = true →
            sorts_before a c = true) →
  StronglySorted newer (list_inventory q s).2
  ∧ ∀ m, (get_my_items u email s).2 = Some m → StronglySorted newer (found m).
Proof.
  intros Htotal Htrans.
  assert (Total newer) as Ht by (intros x y; apply Htotal).
  assert (Transitive newer) as Hr
    by (intros x y z Hxy Hyz; by apply (Htrans _ (get y.2 "createdAt"))).
  split.
  - unfold list_inventory. destruct (list_test q); simpl; [|constructor].
    apply (StronglySorted_merge_sort newer).
  - intros m. unfold get_my_items. destruct (truthy_str email); [|done].
    intros [= <-]. apply (StronglySorted_merge_sort newer).
Qed.

End Order.

Lemma demo_order_total (a b : value) : demo_order a b = true ∨ demo_order b a = true.
Proof.
  destruct a as [| | | | |[x|]| |], b as [| | | | |[y|]| |]; simpl; auto.
  rewrite !Z.leb_le. lia.
Qed.

Lemma demo_order_trans (a b c : value) :
  demo_order a b = true → demo_order b c = true → demo_order a c = true.
Proof.
  destruct a as [| | | | |[x|]| |], b as [| | | | |[y|]| |], c as [| | | | |[z|]| |];
    simpl; try done.
  rewrite !Z.leb_le. lia.
Qed.

(** The two items of the demo store: the umbrella, posted later, comes
    first. *)
Lemma listings_newest_first_witness :
  (list_inventory (driver := demo_driver) no_filter store3).2
  = [(Oid umbrella_id, umbrella); (Oid wallet_id, wallet_recovered)]
  ∧ StronglySorted (newer (driver := demo_driver))
      (list_inventory (driver := demo_driver) no_filter store3).2.
Proof.
  split; [reflexivity|].
  pose proof (listings_newest_first (driver := demo_driver)
                no_filter user_A None store3 demo_order_total demo_order_trans)
    as [Hsorted _].
  exact Hsorted.
Defined.

(** ** Witnesses for the resolver, the login and the listings *)

Lemma store0_unique_emails : unique_emails store0.
Proof.
  assert (∀ k d, users store0 !! k = Some d →
                 (k = id_A ∧ get d "email" = VStr "a@x.com")
                 ∨ (k = id_B ∧ get d "email" = VStr "b@x.com")
                 ∨ (k = id_C ∧ get d "email" = VStr "c@x.com")) as Hcases.
  { intros k d.
    change (users store0)
      with (<[id_A := user_A.2]> (<[id_B := user_B.2]> (<[id_C := user_C.2]> (∅ : collection)))).
    rewrite !lookup_insert_Some, lookup_empty.
    intros [[<- <-]|[_ [[<- <-]|[_ [[<- <-]|[_ ?]]]]]]; auto. done. }
  intros k k' d d' e Hk Hk' He He'.
  destruct (Hcases k d Hk) as [[-> H1]|[[-> H1]|[-> H1]]],
           (Hcases k' d' Hk') as [[-> H2]|[[-> H2]|[-> H2]]]; congruence.
Qed.

(** A token for an email no user has, on the store of three users. *)
Lemma protect_resolves_stored_user_witness :
  let amb := production 50 id_D in
  let req := bearer_request "id-token-d" in
  let dec := {| c_email := "d@x.com"; c_uid := "uid-d";
                c_name := Some "D"; c_picture := None |} in
  let u := (Oid id_D, new_user amb dec) in
  let s' := with_users store0 (<[u.1 := u.2]> (users store0)) in
  protect (platform := demo') amb req store0 = (s', inr u)
  ∧ users s' !! u.1 = Some u.2
  ∧ users store0 !! u.1 = None.
Proof.
  intros amb req dec u s'.
  assert (protect (platform := demo') amb req store0 = (s', inr u)) as Hp
    by reflexivity.
  split; [exact Hp|].
  destruct (protect_resolves_stored_user (platform := demo') amb req store0 s' u Hp)
    as [Hstored _].
  split; [exact Hstored|reflexivity].
Defined.

Lemma verified_bearer_resolves_by_email_witness :
  let amb := production 50 id_D in
  let req := bearer_request "id-token-d" in
  ∃ u, (protect (platform := demo') amb req store0).2 = inr u
       ∧ get u.2 "email" = VStr "d@x.com"
       ∧ ∃ u', protect (platform := demo') (production 51 "") req
                 (protect (platform := demo') amb req store0).1
               = ((protect (platform := demo') amb req store0).1, inr u')
               ∧ get u'.2 "email" = VStr "d@x.com".
Proof.
  intros amb req.
  assert (bearer_token (authorization req) = Some "id-token-d") as Hb by reflexivity.
  assert (verifyIdToken (Platform := demo') "id-token-d"
          = Some {| c_email := "d@x.com"; c_uid := "uid-d";
                    c_name := Some "D"; c_picture := None |}) as Hv by reflexivity.
  assert (users store0 !! Oid (fresh_user amb) = None) as Hf by reflexivity.
  exact (verified_bearer_resolves_by_email (platform := demo') amb (production 51 "")
           req store0 _ _ Hb Hv Hf).
Defined.

Lemma session_resolves_named_user_witness :
  let req := cookie_request "uid:uid-b" in
  protect (platform := demo') (production 50 "") req store0 = (store0, inr user_B)
  ∧ users store0 !! user_B.1 = Some user_B.2
  ∧ get user_B.2 "uid" = VStr "uid-b".
Proof.
  intros req.
  assert (bearer_token (authorization req) = None) as Hb by reflexivity.
  assert (protect (platform := demo') (production 50 "") req store0
          = (store0, inr user_B)) as Hp by reflexivity.
  split; [exact Hp|].
  destruct (session_resolves_named_user (platform := demo') (production 50 "") req
              store0 store0 user_B Hb Hp) as (_ & t & dec & _ & _ & Hstored & _).
  split; [exact Hstored|reflexivity].
Defined.

(** User A logs in, then a new user does. *)
Lemma emails_stay_unique_witness :
  unique_emails
    (firebase_login (platform := demo') (driver := demo_driver) (production 50 id_D)
       (login_request [("idToken", VStr "id-token-d")]) store0).2.
Proof.
  apply (emails_stay_unique (platform := demo') (driver := demo_driver)).
  apply store0_unique_emails.
Defined.

(** User A has no photo; the token has a picture, the request sends a
    photo: the picture is stored. *)
Lemma login_photo_witness :
  let req := login_request [("idToken", VStr "id-token-a"); ("photoURL", VStr "mine")] in
  ∃ d', users (firebase_login (platform := demo') (driver := demo_driver)
                 (production 50 "") req store0).2 !! id_A = Some d'
        ∧ get d' "photoURL" = VStr "pic-a".
Proof.
  intros req.
  assert (get (body req) "idToken" = VStr "id-token-a") as Hb by reflexivity.
  assert ("id-token-a" ≠ "") as Ht by discriminate.
  assert (verifyIdToken (Platform := demo') "id-token-a"
          = Some {| c_email := "a@x.com"; c_uid := "uid-a2";
                    c_name := Some "A"; c_picture := Some "pic-a" |}) as Hv by reflexivity.
  assert (findOne "email" (VStr "a@x.com") (users store0) = Some (id_A, user_A.2)) as Hf
    by reflexivity.
  exact (login_photo (platform := demo') (driver := demo_driver) (production 50 "")
           req store0 _ _ _ _ Hb Ht Hv Hf).
Defined.


Lemma no_uid (uid : string) (s : store) :
  findOne "uid" (VStr uid) (users s) = None →
  ∀ k d, users s !! k = Some d → get d "uid" ≠ VStr uid.
Proof.
  intros Hn k d Hk. apply eq_match_str. revert k d Hk. by apply findOne_None.
Qed.

Lemma first_login_then_session_witness :
  let amb := production 50 id_D in
  let req := login_request [("idToken", VStr "id-token-d")] in
  let out := firebase_login (platform := demo') (driver := demo_driver) amb req store0 in
  let dec := {| c_email := "d@x.com"; c_uid := "uid-d";
                c_name := Some "D"; c_picture := None |} in
  login_cookie out.1 = Some "uid:uid-d@50"
  ∧ protect (platform := demo') (production 51 "") (cookie_request "uid:uid-d@50") out.2
    = (out.2, inr (Oid id_D, login_new_user amb dec (body req))).
Proof.
  intros amb req out dec. split; [reflexivity|].
  assert (get (body req) "idToken" = VStr "id-token-d") as Hb by reflexivity.
  assert ("id-token-d" ≠ "") as Ht by discriminate.
  assert (verifyIdToken (Platform := demo') "id-token-d" = Some dec) as Hv by reflexivity.
  assert (c_uid dec ≠ "") as Hu by discriminate.
  assert (findOne "email" (VStr (c_email dec)) (users store0) = None) as Hn
    by reflexivity.
  assert (users store0 !! Oid (fresh_user amb) = None) as Hf by reflexivity.
  assert (jwt_sign (Driver := demo_driver) (now amb) (createToken (c_uid dec) true) ≠ "") as Hs
    by discriminate.
  assert (jwt_verify (Platform := demo')
            (jwt_sign (Driver := demo_driver) (now amb) (createToken (c_uid dec) true))
          = Some (createToken (c_uid dec) true)) as Hj by reflexivity.
  exact (proj2 (first_login_then_session (platform := demo') (driver := demo_driver)
                  amb (production 51 "") req (cookie_request "uid:uid-d@50") store0 _ dec
                  Hb Ht Hv Hu Hn (no_uid "uid-d" store0 eq_refl) Hf Hs Hj
                  eq_refl eq_refl)).
Defined.

(** User A is stored with the [uid] of an earlier account. *)
Lemma stale_uid_login_then_session_witness :
  let req := login_request [("idToken", VStr "id-token-a")] in
  let out := firebase_login (platform := demo') (driver := demo_driver)
               (production 50 "") req store0 in
  status (login_response out.1) = 200
  ∧ protect (platform := demo') (production 51 "") (cookie_request "uid:uid-a2@50") out.2
    = (out.2, inl (reply 404 "User not found")).
Proof.
  intros req out.
  set (dec := {| c_email := "a@x.com"; c_uid := "uid-a2";
                 c_name := Some "A"; c_picture := Some "pic-a" |}).
  assert (get (body req) "idToken" = VStr "id-token-a") as Hb by reflexivity.
  assert ("id-token-a" ≠ "") as Ht by discriminate.
  assert (verifyIdToken (Platform := demo') "id-token-a" = Some dec) as Hv by reflexivity.
  assert (c_uid dec ≠ "") as Hu by discriminate.
  assert (findOne "email" (VStr (c_email dec)) (users store0) = Some (id_A, user_A.2))
    as Hf by reflexivity.
  assert (jwt_sign (Driver := demo_driver) 50 (createToken (c_uid dec) true) ≠ "") as Hs
    by discriminate.
  assert (jwt_verify (Platform := demo')
            (jwt_sign (Driver := demo_driver) 50 (createToken (c_uid dec) true))
          = Some (createToken (c_uid dec) true)) as Hj by reflexivity.
  exact (stale_uid_login_then_session (platform := demo') (driver := demo_driver)
           (production 50 "") (production 51 "") req (cookie_request "uid:uid-a2@50")
           store0 _ dec _ _ Hb Ht Hv Hu Hf (no_uid "uid-a2" store0 eq_refl) Hs Hj
           eq_refl eq_refl).
Defined.

(** User C asks for the items of user A. *)
Lemma my_items_lists_by_email_witness :
  ∃ m, get_my_items (driver := demo_driver) user_C (Some "a@x.com") store3
       = (reply 200 "", Some m)
       ∧ found m = [(Oid wallet_id, wallet_recovered)]
       ∧ ∀ k d, (k, d) ∈ found m
                ↔ items store3 !! k = Some d ∧ get d "contactEmail" = VStr "a@x.com".
Proof.
  destruct (my_items_lists_by_email (driver := demo_driver)
              user_C (Some "a@x.com") store3 "a@x.com" eq_refl)
    as (m & Hm & _ & _ & _ & Hin).
  exists m. split; [exact Hm|]. split; [|exact Hin].
  assert (get_my_items (driver := demo_driver) user_C
            (Some "a@x.com") store3
          = (reply 200 "", Some {| emailUsed := "a@x.com"; itemsFound := 1;
                                   found := [(Oid wallet_id, wallet_recovered)] |}))
    as Hc by reflexivity.
  rewrite Hc in Hm. by injection Hm as <-.
Defined.

(** User B records the recovery of the wallet of user A. *)
Lemma recorded_recovery_is_listed_witness :
  let amb := production 20 "222222222222222222222222" in
  let req := request_of wallet_id claim_fields in
  ∃ r item',
    items store2 !! Oid wallet_id = Some item'
    ∧ is_recovered item'
    ∧ get r "item" = VObj (<["_id" := VOid wallet_id]> item')
    ∧ (Oid "222222222222222222222222", r)
      ∈ (list_recoveries (platform := demo) (driver := demo_driver) user_B store2).2
    ∧ (Oid "222222222222222222222222", r)
      ∈ (list_recoveries (platform := demo) (driver := demo_driver) user_A store2).2.
Proof.
  intros amb req.
  assert (find_item (platform := demo) amb (param_id req) (items store1)
          = Some (Oid wallet_id, wallet)) as Hf by reflexivity.
  assert (status (post_recover (platform := demo) amb user_B req store1).1 = 200) as Hok
    by reflexivity.
  assert (get wallet "contactEmail" = VStr "a@x.com") as He by reflexivity.
  assert (get user_A.2 "email" = VStr "a@x.com") as Ho by reflexivity.
  assert (is_Some (ObjectId_new (platform := demo) user_A.1)) as Hid by (by eexists).
  exact (recorded_recovery_is_listed (platform := demo) (driver := demo_driver)
           amb user_B user_A req store1 _ _ _ Hf Hok He Ho Hid).
Defined.

(** User A logs in under a new name: the email stays. *)
Lemma login_writes_profile_fields_witness :
  let req := login_request [("idToken", VStr "id-token-a"); ("name", VStr "Ann")] in
  let s' := (firebase_login (platform := demo') (driver := demo_driver)
               (production 50 "") req store0).2 in
  items s' = items store0
  ∧ ∃ d', users s' !! id_A = Some d' ∧ d' !! "email" = user_A.2 !! "email".
Proof.
  intros req s'.
  assert (users store0 !! id_A = Some user_A.2) as Hk by reflexivity.
  pose proof (login_writes_profile_fields (platform := demo') (driver := demo_driver)
                (production 50 "") req store0) as (Hi & _ & Hu).
  split; [exact Hi|].
  destruct (Hu id_A user_A.2 Hk) as (d' & Hd' & Hframe).
  exists d'. split; [exact Hd'|]. apply Hframe.
  unfold loginFields. rewrite !elem_of_cons, elem_of_nil. intros [?|[?|[?|[]]]]; done.
Defined.

(** The items at a station, of the demo store. *)
Lemma listing_lists_what_passes_witness :
  let q := {| q_type := Some "found"; q_status := None; q_category := None;
              q_location := Some "station"; q_search := None |} in
  (list_inventory (driver := demo_driver) q store3).2 = [(Oid umbrella_id, umbrella)]
  ∧ ∀ k d, (k, d) ∈ (list_inventory (driver := demo_driver) q store3).2
           ↔ items store3 !! k = Some d ∧ passes (driver := demo_driver) q d.
Proof.
  intros q. split; [reflexivity|].
  assert (status (list_inventory (driver := demo_driver) q store3).1 = 200) as Hok
    by reflexivity.
  pose proof (listing_lists_what_passes (driver := demo_driver) q store3) as [_ Hl].
  exact (proj2 (Hl Hok)).
Defined.

Lemma status_filter_misses_not_recovered_witness :
  let q st := {| q_type := None; q_status := Some st; q_category := None;
                 q_location := None; q_search := None |} in
  (∀ k d, (k, d) ∈ (list_inventory (driver := demo_driver) (q "active") store3).2 →
          get d "status" ≠ VStr "not-recovered")
  ∧ list_inventory (driver := demo_driver) (q "not-recovered") store3
    = list_inventory (driver := demo_driver) no_filter store3.
Proof.
  intros q.
  pose proof (status_filter_misses_not_recovered (driver := demo_driver)
                (q "active") store3) as [Ha _].
  pose proof (status_filter_misses_not_recovered (driver := demo_driver)
                (q "not-recovered") store3) as [_ Hn].
  split; [exact (Ha eq_refl)|exact (Hn eq_refl)].
Defined.

(** The recoveries of user B in the demo store. *)
Lemma recoveries_listed_for_parties_witness :
  (list_recoveries (platform := demo) (driver := demo_driver) user_B store2).1
  = reply 200 ""
  ∧ ∀ k r', (k, r') ∈ (list_recoveries (platform := demo) (driver := demo_driver)
                         user_B store2).2
            ↔ ∃ r, recoveries store2 !! k = Some r
                   ∧ r' = <["item" := attached_item (platform := demo)
                                        (driver := demo_driver) r (items store2)]> r
                   ∧ concerns (platform := demo) (driver := demo_driver) user_B r.
Proof.
  assert (is_Some (ObjectId_new (platform := demo) user_B.1)) as Hid by (by eexists).
  pose proof (recoveries_listed_for_parties (platform := demo) (driver := demo_driver)
                user_B store2) as [_ Hl].
  exact (Hl Hid).
Defined.
